(** * DishOut: the analysis client and the application state machine

    A shallow embedding of [src/App.tsx] (the [App] component and the
    [AIService] class that follows it) and of [src/types.ts].

    JavaScript strings are sequences of UTF-16 code units; they are
    modelled as lists of integers, so that [slice], [indexOf], [trim],
    [split] and the two regular expressions of the enrichment step work on
    the same units as the source. *)

From Stdlib Require Import String Ascii.
From Stdlib Require Import ZArith List Bool Lia Floats.
Import ListNotations.
Open Scope Z_scope.

Set Implicit Arguments.

(* ------------------------------------------------------------------ *)
(** * JavaScript strings *)

Module JS.

Definition str := list Z.

(** A string literal of the source, as code units. *)
Definition lit (s : string) : str :=
  map (fun a => Z.of_N (N_of_ascii a)) (list_ascii_of_string s).

(** Truthiness of a string: every string but the empty one. *)
Definition truthy (s : str) : bool :=
  match s with [] => false | _ :: _ => true end.

(** [a || b] on strings. *)
Definition orElse (a b : str) : str := if truthy a then a else b.

Fixpoint eqb (a b : str) : bool :=
  match a, b with
  | [], [] => true
  | x :: a', y :: b' => (x =? y) && eqb a' b'
  | _, _ => false
  end.

(** [\d]: the ASCII digits. *)
Definition isDigit (c : Z) : bool := (48 <=? c) && (c <=? 57).

(** [\s], which is also the set removed by [trim]: WhiteSpace and
    LineTerminator of ECMA-262. *)
Definition isSpace (c : Z) : bool :=
  ((9 <=? c) && (c <=? 13)) || (c =? 32) || (c =? 160) || (c =? 5760)
  || ((8192 <=? c) && (c <=? 8202)) || (c =? 8232) || (c =? 8233)
  || (c =? 8239) || (c =? 8287) || (c =? 12288) || (c =? 65279).

Fixpoint dropWhile (p : Z -> bool) (s : str) : str :=
  match s with
  | [] => []
  | c :: s' => if p c then dropWhile p s' else s
  end.

(** [s.trim()] *)
Definition trim (s : str) : str :=
  rev (dropWhile isSpace (rev (dropWhile isSpace s))).

Fixpoint startsWith (p s : str) : bool :=
  match p, s with
  | [], _ => true
  | x :: p', y :: s' => (x =? y) && startsWith p' s'
  | _ :: _, [] => false
  end.

Fixpoint indexOfFrom (needle hay : str) (i : nat) : option nat :=
  if startsWith needle hay then Some i
  else match hay with
       | [] => None
       | _ :: hay' => indexOfFrom needle hay' (S i)
       end.

(** [hay.indexOf(needle)]; [None] stands for [-1]. *)
Definition indexOf (hay needle : str) : option nat := indexOfFrom needle hay 0.

(** [s.slice(a, b)] for non-negative integer bounds: both are clamped to
    the length, and the result is empty when [b <= a]. *)
Definition slice (s : str) (a b : nat) : str := firstn (b - a) (skipn a s).

(** [s.split(sep)] for a separator of one code unit. *)
Fixpoint split (sep : Z) (s : str) : list str :=
  match s with
  | [] => [[]]
  | c :: s' =>
      if c =? sep then [] :: split sep s'
      else match split sep s' with
           | l :: ls => (c :: l) :: ls
           | [] => [[c]]
           end
  end.

(** [l.join(sep)] *)
Fixpoint join (sep : str) (l : list str) : str :=
  match l with
  | [] => []
  | [x] => x
  | x :: xs => x ++ sep ++ join sep xs
  end.

(** [l.slice(a, b)] on arrays, non-negative integer bounds. *)
Definition sliceArr {A} (l : list A) (a b : nat) : list A :=
  firstn (b - a) (skipn a l).

(** [s.replace(/[...]/g, '')]: every code unit of the class is removed. *)
Definition removeAll (cls : Z -> bool) (s : str) : str :=
  filter (fun c => negb (cls c)) s.

(** Code units are 16 bits wide. *)
Definition isCodeUnit (c : Z) : bool := (0 <=? c) && (c <? 65536).
Definition wellFormed (s : str) : bool := forallb isCodeUnit s.

End JS.

Notation "'js' s" := (JS.lit s%string) (at level 9, s at level 0, only parsing).

(* ------------------------------------------------------------------ *)
(** * The regular expressions of the enrichment step

    Both patterns are sequences of quantified one-character atoms, so a
    pattern is a list of atoms and the matcher is the backtracking matcher
    of ECMA-262 restricted to that shape: a greedy atom tries the longest
    run first and gives characters back one at a time, a lazy atom tries
    the shortest run first. *)

Module Regex.

Inductive Greed := Greedy | Lazy.

Record Atom := mkAtom {
  accepts : Z -> bool;      (* the character class *)
  lo : nat;                 (* least number of repetitions *)
  hi : option nat;          (* greatest number, [None] for unbounded *)
  greed : Greed;
  captured : bool           (* inside capture group 1 *)
}.

Definition Pattern := list Atom.

(** Length of the longest run of accepted characters at the head of [s],
    cut at [cap]. *)
Fixpoint runLength (p : Z -> bool) (cap : option nat) (s : JS.str) : nat :=
  match s with
  | [] => O
  | c :: s' =>
      if p c then
        match cap with
        | None => S (runLength p None s')
        | Some O => O
        | Some (S k) => S (runLength p (Some k) s')
        end
      else O
  end.

Fixpoint firstSome {A B} (f : A -> option B) (l : list A) : option B :=
  match l with
  | [] => None
  | a :: l' => match f a with Some b => Some b | None => firstSome f l' end
  end.

(** Repetition counts in the order the matcher tries them. *)
Definition candidates (g : Greed) (lo m : nat) : list nat :=
  match g with
  | Lazy => seq lo (S m - lo)
  | Greedy => rev (seq lo (S m - lo))
  end.

(** Match [r] at the head of [s]; the result lists what each atom
    consumed. *)
Fixpoint matchHere (r : Pattern) (s : JS.str) : option (list JS.str) :=
  match r with
  | [] => Some []
  | a :: r' =>
      let m := runLength (accepts a) (hi a) s in
      firstSome
        (fun n => match matchHere r' (skipn n s) with
                  | Some segs => Some (firstn n s :: segs)
                  | None => None
                  end)
        (candidates (greed a) (lo a) m)
  end.

Fixpoint execFrom (r : Pattern) (s : JS.str) (i : nat) : option (nat * list JS.str) :=
  match matchHere r s with
  | Some segs => Some (i, segs)
  | None => match s with
            | [] => None
            | _ :: s' => execFrom r s' (S i)
            end
  end.

(** Leftmost match of [r] in [s]: its index and its segments. *)
Definition exec (r : Pattern) (s : JS.str) : option (nat * list JS.str) :=
  execFrom r s 0.

Fixpoint group1 (r : Pattern) (segs : list JS.str) : JS.str :=
  match r, segs with
  | a :: r', g :: segs' => (if captured a then g else []) ++ group1 r' segs'
  | _, _ => []
  end.

(** [s.match(r)] followed by [[1]]: [None] when there is no match. *)
Definition matchGroup1 (r : Pattern) (s : JS.str) : option JS.str :=
  match exec r s with
  | Some (_, segs) => Some (group1 r segs)
  | None => None
  end.

(** Atom builders. *)
Definition one (p : Z -> bool) (cap : bool) : Atom := mkAtom p 1 (Some 1%nat) Greedy cap.
Definition opt (p : Z -> bool) (cap : bool) : Atom := mkAtom p 0 (Some 1%nat) Greedy cap.
Definition star (p : Z -> bool) (cap : bool) : Atom := mkAtom p 0 None Greedy cap.
Definition atLeast (n : nat) (p : Z -> bool) (cap : bool) : Atom := mkAtom p n None Greedy cap.
Definition between (g : Greed) (a b : nat) (p : Z -> bool) (cap : bool) : Atom :=
  mkAtom p a (Some b) g cap.

Definition chr (c : Z) : Z -> bool := fun x => x =? c.

(** A letter under the [i] flag (without [u]): canonicalisation never
    maps a code unit of 128 or more to an ASCII one, so only the two
    ASCII cases of the letter match. *)
Definition letter (upper : Z) : Z -> bool := fun x => (x =? upper) || (x =? upper + 32).

(** [[+\d\s()-]] *)
Definition phoneChar (c : Z) : bool :=
  (c =? 43) || JS.isDigit c || JS.isSpace c || (c =? 40) || (c =? 41) || (c =? 45).

(** [[-.\s]] *)
Definition sepChar (c : Z) : bool := (c =? 45) || (c =? 46) || JS.isSpace c.

(** [/Phone:\s*([+\d\s()-]{8,})/i] *)
Definition labeled : Pattern :=
  [ one (letter 80) false; one (letter 72) false; one (letter 79) false;
    one (letter 78) false; one (letter 69) false; one (chr 58) false;
    star JS.isSpace false;
    atLeast 8 phoneChar true ].

(** [/(\+\d{1,3}[-.\s]?\(?\d{1,4}?\)?[-.\s]?\d{1,4}[-.\s]?\d{1,9})/] *)
Definition bare : Pattern :=
  [ one (chr 43) true;
    between Greedy 1 3 JS.isDigit true;
    opt sepChar true;
    opt (chr 40) true;
    between Lazy 1 4 JS.isDigit true;
    opt (chr 41) true;
    opt sepChar true;
    between Greedy 1 4 JS.isDigit true;
    opt sepChar true;
    between Greedy 1 9 JS.isDigit true ].

End Regex.

(* ------------------------------------------------------------------ *)
(** * [src/types.ts] *)

Module Types.

Record LocationData := {
  latitude : float;
  longitude : float
}.

Record ReviewSnippet := { content : JS.str }.

Record PlaceAnswerSource := { reviewSnippets : option (list ReviewSnippet) }.

Record Maps := {
  uri : JS.str;
  title : JS.str;
  phoneNumber : option JS.str;
  address : option JS.str;
  placeAnswerSources : option (list PlaceAnswerSource)
}.

Record GroundingChunk := { maps : option Maps }.

Record DishAnalysisResult := {
  dishName : JS.str;
  description : JS.str;
  groundingChunks : list GroundingChunk;
  rawText : JS.str
}.

Inductive AppState := IDLE | CAPTURING | ANALYZING | RESULTS | ERROR.

End Types.

(* ------------------------------------------------------------------ *)
(** * Promises and errors *)

Record JsError := { message : JS.str }.

(** How an awaited promise settles. *)
Inductive Settled (A : Type) :=
| Resolved (a : A)
| Rejected (e : JsError).

Arguments Resolved {A} a.
Arguments Rejected {A} e.

(* ------------------------------------------------------------------ *)
(** * [AIService] *)

Module AIService.
Import Types.

(** The part of the service's response that the client reads:
    [response.text] and
    [response.candidates?.[0]?.groundingMetadata?.groundingChunks]. *)
Record GroundingMetadata := { rawGroundingChunks : option (list GroundingChunk) }.
Record Candidate := { groundingMetadata : option GroundingMetadata }.
Record GenerateContentResponse := {
  text : option JS.str;
  candidates : option (list Candidate)
}.

Definition fallbackText : JS.str := js "I couldn't identify the dish.".
Definition unknownDish : JS.str := js "Unknown Dish".
Definition genericDescription : JS.str := js "Delicious culinary creation identified.".
Definition failureMessage : JS.str :=
  js "Failed to analyze dish. Please ensure your API_KEY is a valid Google Gemini key.".

(** [response.text || "I couldn't identify the dish."] *)
Definition responseText (response : GenerateContentResponse) : JS.str :=
  match text response with
  | Some t => JS.orElse t fallbackText
  | None => fallbackText
  end.

(** [text.split('\n').filter(l => l.trim().length > 0)] *)
Definition nonBlank (l : JS.str) : bool := (0 <? length (JS.trim l))%nat.
Definition lines (text : JS.str) : list JS.str := filter nonBlank (JS.split 10 text).

(** [/[*#]/] *)
Definition markdownMarker (c : Z) : bool := (c =? 42) || (c =? 35).

(** [lines[0]?.replace(/[*#]/g, '').trim() || "Unknown Dish"] *)
Definition parseDishName (text : JS.str) : JS.str :=
  match nth_error (lines text) 0 with
  | Some l => JS.orElse (JS.trim (JS.removeAll markdownMarker l)) unknownDish
  | None => unknownDish
  end.

(** [lines.slice(1, 4).join(' ').trim() || "Delicious culinary creation identified."] *)
Definition parseDescription (text : JS.str) : JS.str :=
  JS.orElse (JS.trim (JS.join (js " ") (JS.sliceArr (lines text) 1 4))) genericDescription.

(** [response.candidates?.[0]?.groundingMetadata?.groundingChunks || []] *)
Definition rawChunks (response : GenerateContentResponse) : list GroundingChunk :=
  match candidates response with
  | Some (c :: _) =>
      match groundingMetadata c with
      | Some md => match rawGroundingChunks md with Some l => l | None => [] end
      | None => []
      end
  | _ => []
  end.

(** [snippet.match(labeled) || snippet.match(bare)] *)
Definition phoneMatch (snippet : JS.str) : option JS.str :=
  match Regex.matchGroup1 Regex.labeled snippet with
  | Some g => Some g
  | None => Regex.matchGroup1 Regex.bare snippet
  end.

(** [{ ...chunk, maps: { ...chunk.maps, phoneNumber: p } }] *)
Definition withPhone (m : Maps) (p : JS.str) : GroundingChunk :=
  {| maps := Some {| uri := uri m; title := title m; phoneNumber := Some p;
                     address := address m;
                     placeAnswerSources := placeAnswerSources m |} |}.

(** The function mapped over the raw chunks. *)
Definition enrichChunk (text : JS.str) (chunk : GroundingChunk) : GroundingChunk :=
  match maps chunk with
  | Some m =>
      if JS.truthy (title m) then
        match JS.indexOf text (title m) with
        | Some titleIndex =>
            let snippet := JS.slice text titleIndex (titleIndex + 400) in
            match phoneMatch snippet with
            | Some g => if JS.truthy g then withPhone m (JS.trim g) else chunk
            | None => chunk
            end
        | None => chunk
        end
      else chunk
  | None => chunk
  end.

(** What follows [await this.ai.models.generateContent(...)] in the [try]
    block. *)
Definition analyze (response : GenerateContentResponse) : DishAnalysisResult :=
  let text := responseText response in
  {| dishName := parseDishName text;
     description := parseDescription text;
     groundingChunks := map (enrichChunk text) (rawChunks response);
     rawText := text |}.

(** [identifyDishAndFindPlaces], as a function of how the call to the
    service settles: a rejection is caught and a new error is thrown
    (lines 414-417).  What the [catch] writes to the console before it
    throws is [identifyDishAndFindPlaces_console]. *)
Definition identifyDishAndFindPlaces
    (call : Settled GenerateContentResponse) : Settled DishAnalysisResult :=
  match call with
  | Resolved response => Resolved (analyze response)
  | Rejected _ => Rejected {| message := failureMessage |}
  end.

(** Line 415: [console.error("Gemini API Error:", error)]. *)
Definition identifyDishAndFindPlaces_console
    (call : Settled GenerateContentResponse) : list JS.str :=
  match call with
  | Resolved _ => []
  | Rejected _ => [js "Gemini API Error:"]
  end.

End AIService.

(* ------------------------------------------------------------------ *)
(** * [encodeURIComponent] (ECMA-262, Encode with the unreserved set
      of URI components) *)

Module URI.

Definition isAlpha (c : Z) : bool :=
  ((65 <=? c) && (c <=? 90)) || ((97 <=? c) && (c <=? 122)).

(** [-_.!~*'()] *)
Definition isMark (c : Z) : bool :=
  (c =? 45) || (c =? 95) || (c =? 46) || (c =? 33) || (c =? 126)
  || (c =? 42) || (c =? 39) || (c =? 40) || (c =? 41).

Definition unreserved (c : Z) : bool := isAlpha c || JS.isDigit c || isMark c.

Definition isHighSurrogate (c : Z) : bool := (55296 <=? c) && (c <=? 56319).
Definition isLowSurrogate (c : Z) : bool := (56320 <=? c) && (c <=? 57343).

(** Upper-case hexadecimal digit of a value below 16. *)
Definition hexDigit (n : Z) : Z := if n <? 10 then 48 + n else 55 + n.

Definition isHexDigit (c : Z) : bool :=
  ((48 <=? c) && (c <=? 57)) || ((65 <=? c) && (c <=? 70)).

(** ["%XX"] for one octet. *)
Definition percent (octet : Z) : JS.str :=
  [37; hexDigit (Z.shiftr octet 4); hexDigit (Z.land octet 15)].

(** The UTF-8 octets of a code point. *)
Definition utf8 (cp : Z) : list Z :=
  if cp <? 128 then [cp]
  else if cp <? 2048 then
    [Z.lor 192 (Z.shiftr cp 6); Z.lor 128 (Z.land cp 63)]
  else if cp <? 65536 then
    [Z.lor 224 (Z.shiftr cp 12);
     Z.lor 128 (Z.land (Z.shiftr cp 6) 63);
     Z.lor 128 (Z.land cp 63)]
  else
    [Z.lor 240 (Z.shiftr cp 18);
     Z.lor 128 (Z.land (Z.shiftr cp 12) 63);
     Z.lor 128 (Z.land (Z.shiftr cp 6) 63);
     Z.lor 128 (Z.land cp 63)].

Definition escape (cp : Z) : JS.str := concat (map percent (utf8 cp)).

Definition codePoint (hi lo : Z) : Z := (hi - 55296) * 1024 + (lo - 56320) + 65536.

(** [None] stands for the [URIError] thrown at an unpaired surrogate. *)
Fixpoint encodeURIComponent (s : JS.str) : option JS.str :=
  match s with
  | [] => Some []
  | c :: s' =>
      if unreserved c then option_map (cons c) (encodeURIComponent s')
      else if isLowSurrogate c then None
      else if isHighSurrogate c then
        match s' with
        | d :: s'' =>
            if isLowSurrogate d
            then option_map (app (escape (codePoint c d))) (encodeURIComponent s'')
            else None
        | [] => None
        end
      else option_map (app (escape c)) (encodeURIComponent s')
  end.

(** The characters an encoded component is made of: the unreserved
    ones, and [%] with hexadecimal digits. *)
Definition uriChar (c : Z) : bool := unreserved c || (c =? 37) || isHexDigit c.

End URI.

(* ------------------------------------------------------------------ *)
(** * The [App] component *)

Module App.
Import Types.

Record File := { fileName : JS.str }.

(** [currentUser] of [useAuth()]; only [email] is read. *)
Record User := { email : option JS.str }.

Record PendingOrder := { phone : JS.str; title : JS.str }.

(** What is behind one picture of the screen: the [useState] cells of
    the component (lines 17-26) and, last, what the
    [<AnimatePresence mode="wait">] of line 185 remembers.  The idle view
    is its only child with an [exit] animation (line 191): when [appState]
    leaves [IDLE] that view stays mounted, with the handlers of its last
    render, until the animation has run, and only then is the view of the
    current state mounted.  [idleLeaving] is [Some u] during that time,
    [u] being the [currentUser] those handlers closed over. *)
Record State := mkState {
  currentPage : JS.str;
  appState : AppState;
  imagePreview : option JS.str;
  uploadedImageUrl : option JS.str;
  analysisResult : option DishAnalysisResult;
  location : option LocationData;
  errorMsg : option JS.str;
  showDeliveryModal : bool;
  pendingOrder : option PendingOrder;
  idleLeaving : option (option User)
}.

Definition initialState : State :=
  mkState (js "home") IDLE None None None None None false None None.

Definition setCurrentPage v (s : State) : State :=
  mkState v (appState s) (imagePreview s) (uploadedImageUrl s) (analysisResult s)
          (location s) (errorMsg s) (showDeliveryModal s) (pendingOrder s)
          (idleLeaving s).
Definition setAppState v (s : State) : State :=
  mkState (currentPage s) v (imagePreview s) (uploadedImageUrl s) (analysisResult s)
          (location s) (errorMsg s) (showDeliveryModal s) (pendingOrder s)
          (idleLeaving s).
Definition setImagePreview v (s : State) : State :=
  mkState (currentPage s) (appState s) v (uploadedImageUrl s) (analysisResult s)
          (location s) (errorMsg s) (showDeliveryModal s) (pendingOrder s)
          (idleLeaving s).
Definition setUploadedImageUrl v (s : State) : State :=
  mkState (currentPage s) (appState s) (imagePreview s) v (analysisResult s)
          (location s) (errorMsg s) (showDeliveryModal s) (pendingOrder s)
          (idleLeaving s).
Definition setAnalysisResult v (s : State) : State :=
  mkState (currentPage s) (appState s) (imagePreview s) (uploadedImageUrl s) v
          (location s) (errorMsg s) (showDeliveryModal s) (pendingOrder s)
          (idleLeaving s).
Definition setLocation v (s : State) : State :=
  mkState (currentPage s) (appState s) (imagePreview s) (uploadedImageUrl s)
          (analysisResult s) v (errorMsg s) (showDeliveryModal s) (pendingOrder s)
          (idleLeaving s).
Definition setErrorMsg v (s : State) : State :=
  mkState (currentPage s) (appState s) (imagePreview s) (uploadedImageUrl s)
          (analysisResult s) (location s) v (showDeliveryModal s) (pendingOrder s)
          (idleLeaving s).
Definition setShowDeliveryModal v (s : State) : State :=
  mkState (currentPage s) (appState s) (imagePreview s) (uploadedImageUrl s)
          (analysisResult s) (location s) (errorMsg s) v (pendingOrder s)
          (idleLeaving s).
Definition setPendingOrder v (s : State) : State :=
  mkState (currentPage s) (appState s) (imagePreview s) (uploadedImageUrl s)
          (analysisResult s) (location s) (errorMsg s) (showDeliveryModal s) v
          (idleLeaving s).
Definition setIdleLeaving v (s : State) : State :=
  mkState (currentPage s) (appState s) (imagePreview s) (uploadedImageUrl s)
          (analysisResult s) (location s) (errorMsg s) (showDeliveryModal s)
          (pendingOrder s) v.

(** The record sent to [apiService.trackLead]. *)
Record Lead := {
  leadDishName : JS.str;
  restaurantName : JS.str;
  restaurantPhone : JS.str;
  userEmail : option JS.str;
  timestamp : JS.str;
  dishImageUrl : option JS.str
}.

(** What a handler does to the world outside the component. *)
Inductive Effect :=
| PreventDefault
| Alert (msg : JS.str)
| WindowOpen (url target : JS.str)
| TrackLead (lead : Lead)
| UploadDishImage (image : JS.str)
| ConvertToJpeg (f : File)
| GetLocation
| GenerateContent (base64Data : option JS.str) (mimeType : JS.str)
                  (loc : option LocationData)
| FileInputClick
| FileInputClear
| Console (msg : JS.str)
| Uncaught (name : JS.str).

(** A continuation of the component waiting for a promise to settle. *)
Inductive Task :=
| AwaitConvert                          (* [handleFileChange], line 80 *)
| AwaitUpload                           (* lines 83-85 *)
| AwaitLocation (base64Full : JS.str)   (* [processImage], line 113 *)
| AwaitIdentify.                        (* [processImage], line 122 *)

(** The result of running a handler (or the stretch of an [async]
    function between two [await]s): the new state, the effects in
    order, the continuations left waiting. *)
Record Outcome := mkOutcome {
  next : State;
  effects : list Effect;
  spawned : list Task
}.

Definition Handler := State -> Outcome.

Definition skip : Handler := fun s => mkOutcome s [] [].
Definition modify (f : State -> State) : Handler := fun s => mkOutcome (f s) [] [].
Definition emit (e : Effect) : Handler := fun s => mkOutcome s [e] [].
Definition emitAll (es : list Effect) : Handler := fun s => mkOutcome s es [].
Definition await (t : Task) (e : Effect) : Handler := fun s => mkOutcome s [e] [t].
Definition andThen (f g : Handler) : Handler :=
  fun s =>
    let a := f s in
    let b := g (next a) in
    mkOutcome (next b) (effects a ++ effects b) (spawned a ++ spawned b).

Declare Scope handler_scope.
Delimit Scope handler_scope with handler.
Bind Scope handler_scope with Handler.
Notation "f ;; g" := (andThen f g) (at level 61, right associativity) : handler_scope.
Local Open Scope handler_scope.

Definition truthyOpt (o : option JS.str) : bool :=
  match o with Some s => JS.truthy s | None => false end.

(** Lines 33-42.  [fileInput] tells whether [fileInputRef.current] is
    set, that is whether the input element is mounted. *)
Definition handleCapture (currentUser : option User) (fileInput : bool) : Handler :=
  modify (setErrorMsg None) ;;
  match currentUser with
  | None => modify (setCurrentPage (js "auth"))
  | Some _ => if fileInput then emit FileInputClick else skip
  end.

(** Lines 109-135, up to [await getLocation()]. *)
Definition processImage (base64Full : JS.str) : Handler :=
  await (AwaitLocation base64Full) GetLocation.

(** Lines 114-126: after [getLocation()] settles, up to the [await] of
    the analysis call. *)
Definition processImage_located (base64Full : JS.str)
    (loc : Settled LocationData) : Handler :=
  let base64Data := nth_error (JS.split 44 base64Full) 1 in
  match loc with
  | Resolved locData =>
      modify (setLocation (Some locData)) ;;
      await AwaitIdentify (GenerateContent base64Data (js "image/jpeg") (Some locData))
  | Rejected _ =>
      emit (Console (js "Proceeding without location")) ;;
      await AwaitIdentify (GenerateContent base64Data (js "image/jpeg") None)
  end.

(** Lines 128-134: after [identifyDishAndFindPlaces] settles. *)
Definition processImage_identified (r : Settled DishAnalysisResult) : Handler :=
  match r with
  | Resolved result =>
      modify (setAnalysisResult (Some result)) ;;
      modify (setAppState RESULTS)
  | Rejected err =>
      emit (Console (message err)) ;;
      modify (setErrorMsg (Some (JS.orElse (message err) (js "Something went wrong.")))) ;;
      modify (setAppState ERROR)
  end.

(** Lines 72-80, up to [await convertToJpeg(file)]. *)
Definition handleFileChange (f : option File) : Handler :=
  match f with
  | None => skip
  | Some f =>
      modify (setAppState ANALYZING) ;;
      modify (setUploadedImageUrl None) ;;
      await AwaitConvert (ConvertToJpeg f)
  end.

(** Lines 80-92: after [convertToJpeg] settles. *)
Definition handleFileChange_converted (r : Settled JS.str) : Handler :=
  match r with
  | Resolved base64Jpeg =>
      modify (setImagePreview (Some base64Jpeg)) ;;
      await AwaitUpload (UploadDishImage base64Jpeg) ;;
      processImage base64Jpeg
  | Rejected _ =>
      emit (Console (js "Image processing error:")) ;;
      modify (setErrorMsg (Some (js "Unable to process image."))) ;;
      modify (setAppState ERROR)
  end.

(** Lines 84-85: the [then] and [catch] of the upload. *)
Definition upload_settled (r : Settled JS.str) : Handler :=
  match r with
  | Resolved url => modify (setUploadedImageUrl (Some url))
  | Rejected _ => emit (Console (js "Background image upload failed"))
  end.

(** Lines 137-144. *)
Definition resetApp (fileInput : bool) : Handler :=
  modify (setAppState IDLE) ;;
  modify (setImagePreview None) ;;
  modify (setAnalysisResult None) ;;
  modify (setUploadedImageUrl None) ;;
  modify (setErrorMsg None) ;;
  if fileInput then emit FileInputClear else skip.

Definition noContactNotice : JS.str :=
  js "No official contact number found for this restaurant.".

(** Lines 146-154. *)
Definition handleWhatsAppClick (phone title : option JS.str) : Handler :=
  emit PreventDefault ;;
  match phone with
  | Some p =>
      if JS.truthy p then
        modify (setPendingOrder
                  (Some {| phone := p;
                           title := match title with
                                    | Some t => JS.orElse t (js "Unknown Restaurant")
                                    | None => js "Unknown Restaurant"
                                    end |})) ;;
        modify (setShowDeliveryModal true)
      else emit (Alert noContactNotice)
  | None => emit (Alert noContactNotice)
  end.

(** [pendingOrder.phone.replace(/\D/g, '')] *)
Definition cleanPhone (p : JS.str) : JS.str :=
  JS.removeAll (fun c => negb (JS.isDigit c)) p.

(** [analysisResult?.dishName || "Unknown Dish"] *)
Definition orderDishName (s : State) : JS.str :=
  match analysisResult s with
  | Some r => JS.orElse (dishName r) (js "Unknown Dish")
  | None => js "Unknown Dish"
  end.

(** Lines 160-161. *)
Definition orderMessage (s : State) (po : PendingOrder) (provider : JS.str) : JS.str :=
  let message :=
    js "Hello, I found " ++ title po ++ js " on DishOut. I'd like to order "
    ++ orderDishName s ++ js " via " ++ provider ++ js "." in
  match uploadedImageUrl s with
  | Some url => if JS.truthy url then message ++ js " Dish Reference: " ++ url else message
  | None => message
  end.

(** Lines 156-176.  [now] is [new Date().toISOString()]. *)
Definition handleDeliverySelection (currentUser : option User)
    (now provider : JS.str) : Handler :=
  fun s =>
    match pendingOrder s with
    | None => skip s
    | Some po =>
        match URI.encodeURIComponent (orderMessage s po provider) with
        | None => emit (Uncaught (js "URIError")) s
        | Some encoded =>
            let whatsappUrl :=
              js "https://wa.me/" ++ cleanPhone (phone po) ++ js "?text=" ++ encoded in
            (emit (TrackLead
                     {| leadDishName := orderDishName s;
                        restaurantName := title po;
                        restaurantPhone := cleanPhone (phone po);
                        userEmail := match currentUser with
                                     | Some u => email u
                                     | None => None
                                     end;
                        timestamp := now;
                        dishImageUrl := uploadedImageUrl s |}) ;;
             emit (WindowOpen whatsappUrl (js "_blank")) ;;
             modify (setShowDeliveryModal false) ;;
             modify (setPendingOrder None)) s
        end
    end.

(** Line 303: [onClose] of the delivery selector. *)
Definition closeDeliveryModal : Handler := modify (setShowDeliveryModal false).

(** ** What [renderContent] puts on the screen *)

Inductive Control :=
| CaptureButton             (* line 203 *)
| FileInput                 (* line 216 *)
| OrderLink (idx : nat)     (* line 272, one per grounding chunk *)
| ScanAnotherButton         (* line 286 *)
| TryAgainButton            (* line 296 *)
| DeliverySelector          (* line 301 *)
| AuthForm.                 (* line 181 *)

(** Lines 179-181: the three pages that replace the main view. *)
Definition mainView (s : State) : bool :=
  negb (JS.eqb (currentPage s) (js "privacy")
        || JS.eqb (currentPage s) (js "terms")
        || JS.eqb (currentPage s) (js "auth")).

Definition isState (a b : AppState) : bool :=
  match a, b with
  | IDLE, IDLE | CAPTURING, CAPTURING | ANALYZING, ANALYZING
  | RESULTS, RESULTS | ERROR, ERROR => true
  | _, _ => false
  end.

Definition chunkCount (s : State) : nat :=
  match analysisResult s with
  | Some r => length (groundingChunks r)
  | None => O
  end.

(** The idle view is playing its [exit] animation. *)
Definition leaving (s : State) : bool :=
  match idleLeaving s with Some _ => true | None => false end.

(** Lines 185-299.  The idle view is on the screen in [IDLE] and while
    it leaves; with [mode="wait"] the views of the other states are
    mounted once it has left. *)
Definition rendered (s : State) (c : Control) : bool :=
  match c with
  | AuthForm =>
      negb (JS.eqb (currentPage s) (js "privacy"))
      && negb (JS.eqb (currentPage s) (js "terms"))
      && JS.eqb (currentPage s) (js "auth")
  | CaptureButton | FileInput =>
      mainView s && (isState (appState s) IDLE || leaving s)
  | OrderLink idx =>
      mainView s && isState (appState s) RESULTS
      && match analysisResult s with Some _ => true | None => false end
      && (idx <? chunkCount s)%nat
      && negb (leaving s)
  | ScanAnotherButton =>
      mainView s && isState (appState s) RESULTS
      && match analysisResult s with Some _ => true | None => false end
      && negb (leaving s)
  | TryAgainButton => mainView s && isState (appState s) ERROR && negb (leaving s)
  | DeliverySelector => mainView s
  end.

(** Modelled from the spec: the [DeliverySelector] component, whose
    source is not part of [App.tsx].  It is the delivery modal: while
    [isOpen] it lets the user choose a provider ([onSelect]) or dismiss
    it ([onClose]); while closed it offers neither. *)
Definition deliveryModalOpen (s : State) : bool :=
  rendered s DeliverySelector && showDeliveryModal s.

(** ** Events and the step function *)

Inductive Settlement :=
| ConvertSettled (r : Settled JS.str)
| UploadSettled (r : Settled JS.str)
| LocationSettled (r : Settled LocationData)
| GenerateSettled (r : Settled AIService.GenerateContentResponse).

(** What can happen to the component.  [Navbar] and [AuthForm] are known
    by the callbacks that [App] hands them: the first may set any page, the
    second reports a sign-in.  [now] is the clock read by
    [handleDeliverySelection]. *)
Inductive Event :=
| ClickCapture
| ChooseFile (f : option File)                (* [change] of the file input *)
| ClickOrder (idx : nat)
| ClickReset                                  (* either reset button *)
| SelectProvider (provider now : JS.str)      (* [onSelect] *)
| CloseModal                                  (* [onClose] *)
| Navigate (page : JS.str)                    (* [setCurrentPage] of [Navbar] *)
| AuthSuccess                                 (* [onSuccess] of [AuthForm] *)
| AuthChanged (u : option User)               (* [useAuth] *)
| Settle (n : nat) (v : Settlement)           (* the [n]th waiting promise *)
| ExitComplete.                               (* the idle view has left *)

Record World := mkWorld {
  ui : State;
  currentUser : option User;
  pending : list Task
}.

Definition initialWorld (u : option User) : World := mkWorld initialState u [].

(** [chunk.maps?.phoneNumber] and [chunk.maps?.title] *)
Definition chunkPhone (c : GroundingChunk) : option JS.str :=
  match maps c with Some m => phoneNumber m | None => None end.
Definition chunkTitle (c : GroundingChunk) : option JS.str :=
  match maps c with Some m => Some (Types.title m) | None => None end.

Definition chunkAt (s : State) (idx : nat) : option GroundingChunk :=
  match analysisResult s with
  | Some r => nth_error (groundingChunks r) idx
  | None => None
  end.

Fixpoint removeNth {A} (n : nat) (l : list A) : list A :=
  match l, n with
  | [], _ => []
  | _ :: l', O => l'
  | x :: l', S n' => x :: removeNth n' l'
  end.

(** The continuation run when task [t] settles with [v]; [None] when the
    settlement is not of the task's kind. *)
Definition resume (t : Task) (v : Settlement) : option Handler :=
  match t, v with
  | AwaitConvert, ConvertSettled r => Some (handleFileChange_converted r)
  | AwaitUpload, UploadSettled r => Some (upload_settled r)
  | AwaitLocation b, LocationSettled r => Some (processImage_located b r)
  | AwaitIdentify, GenerateSettled r =>
      Some (emitAll (map Console (AIService.identifyDishAndFindPlaces_console r)) ;;
            processImage_identified (AIService.identifyDishAndFindPlaces r))
  | _, _ => None
  end.

(** What [AnimatePresence] remembers once the component has rendered
    state [s] after state [before]: nothing when the main view is not
    shown or the idle view is the current one; the idle view starts to
    leave, with the [currentUser] of its last render, when the state has
    just left [IDLE]; otherwise nothing changes. *)
Definition presence (before : State) (u : option User) (s : State)
    : option (option User) :=
  if mainView s then
    if isState (appState s) IDLE then None
    else if mainView before && isState (appState before) IDLE then Some u
    else idleLeaving s
  else None.

(** The [currentUser] read by the handlers of the idle view: the current
    one in [IDLE], the one of its last render while it leaves. *)
Definition idleUser (w : World) : option User :=
  if isState (appState (ui w)) IDLE then currentUser w
  else match idleLeaving (ui w) with
       | Some u => u
       | None => currentUser w
       end.

Definition commit (w : World) (keep : list Task) (h : Handler) : World * list Effect :=
  let o := h (ui w) in
  (mkWorld (setIdleLeaving (presence (ui w) (currentUser w) (next o)) (next o))
           (currentUser w) (keep ++ spawned o),
   effects o).

Definition guarded (b : bool) (w : World) (h : Handler) : option (World * list Effect) :=
  if b then Some (commit w (pending w) h) else None.

(** One event; [None] when the screen does not offer it (or no such
    promise is waiting, or no view is leaving). *)
Definition step (w : World) (e : Event) : option (World * list Effect) :=
  let s := ui w in
  match e with
  | ClickCapture =>
      guarded (rendered s CaptureButton) w
              (handleCapture (idleUser w) (rendered s FileInput))
  | ChooseFile f => guarded (rendered s FileInput) w (handleFileChange f)
  | ClickOrder idx =>
      match chunkAt s idx with
      | Some c =>
          guarded (rendered s (OrderLink idx)) w
                  (handleWhatsAppClick (chunkPhone c) (chunkTitle c))
      | None => None
      end
  | ClickReset =>
      guarded (rendered s ScanAnotherButton || rendered s TryAgainButton) w
              (resetApp (rendered s FileInput))
  | SelectProvider provider now =>
      guarded (deliveryModalOpen s) w
              (handleDeliverySelection (currentUser w) now provider)
  | CloseModal => guarded (deliveryModalOpen s) w closeDeliveryModal
  | Navigate page => guarded true w (modify (setCurrentPage page))
  | AuthSuccess => guarded (rendered s AuthForm) w (modify (setCurrentPage (js "home")))
  | AuthChanged u => Some (mkWorld s u (pending w), [])
  | Settle n v =>
      match nth_error (pending w) n with
      | Some t =>
          match resume t v with
          | Some h => Some (commit w (removeNth n (pending w)) h)
          | None => None
          end
      | None => None
      end
  | ExitComplete =>
      if mainView s && leaving s
      then Some (mkWorld (setIdleLeaving None s) (currentUser w) (pending w), [])
      else None
  end.

(** A sequence of events, with the effects it produced in order. *)
Fixpoint run (w : World) (es : list Event) : option (World * list Effect) :=
  match es with
  | [] => Some (w, [])
  | e :: es' =>
      match step w e with
      | Some (w1, fx1) =>
          match run w1 es' with
          | Some (w2, fx2) => Some (w2, fx1 ++ fx2)
          | None => None
          end
      | None => None
      end
  end.

Definition isPipeline (t : Task) : bool :=
  match t with AwaitUpload => false | _ => true end.

Definition isUploadStart (e : Effect) : bool :=
  match e with UploadDishImage _ => true | _ => false end.

End App.

(* ------------------------------------------------------------------ *)
(** * Vocabulary of the statements *)

Unset Implicit Arguments.

(** [needle] occurs in [hay] at offset [i]. *)
Definition occursAt (needle hay : JS.str) (i : nat) : Prop :=
  exists pre post, hay = pre ++ needle ++ post /\ length pre = i.

Definition firstOccurrence (needle hay : JS.str) (i : nat) : Prop :=
  occursAt needle hay i /\ forall j, (j < i)%nat -> ~ occursAt needle hay j.

(** [p] is read from [s] between offsets [a] and [b]. *)
Definition readBetween (s p : JS.str) (a b : nat) : Prop :=
  exists k, (a <= k)%nat /\ (k + length p <= b)%nat /\ firstn (length p) (skipn k s) = p.

Module RegexSpec.
Import Regex.

(** What one atom may consume. *)
Definition segmentOk (a : Atom) (seg : JS.str) : Prop :=
  Forall (fun c => accepts a c = true) seg
  /\ (lo a <= length seg)%nat
  /\ match hi a with Some h => (length seg <= h)%nat | None => True end.

(** The strings a pattern denotes, cut into one segment per atom. *)
Definition denotes (r : Pattern) (segs : list JS.str) : Prop := Forall2 segmentOk r segs.

(** Some substring of [s] is denoted by [r]. *)
Definition occurs (r : Pattern) (s : JS.str) : Prop :=
  exists pre segs post, s = pre ++ concat segs ++ post /\ denotes r segs.

(** [g] is what group 1 holds for some occurrence of [r] in [s]. *)
Definition captures (r : Pattern) (s g : JS.str) : Prop :=
  exists pre segs post,
    s = pre ++ concat segs ++ post /\ denotes r segs /\ g = group1 r segs.

(** [label] is [Phone:] in any mix of cases: each letter is the capital
    or, 32 above it, the small one. *)
Definition isPhoneLabel (label : JS.str) : Prop :=
  Forall2 (fun u c => c = u \/ c = u + 32) (JS.lit "PHONE") (firstn 5 label)
  /\ skipn 5 label = [58].

(** [g] is a number labeled [Phone:] in [s]: the label, optional white
    space, then at least eight characters among digits, white space,
    parentheses, hyphen and plus. *)
Definition labeledNumber (s g : JS.str) : Prop :=
  exists pre label ws post,
    s = pre ++ label ++ ws ++ g ++ post
    /\ isPhoneLabel label
    /\ Forall (fun c => JS.isSpace c = true) ws
    /\ Forall (fun c => phoneChar c = true) g
    /\ (8 <= length g)%nat.

End RegexSpec.

(** ** Which match a search returns *)

Module PhoneSpec.
Import Types.

(** The characters of a labeled number: plus, digits, white space,
    parentheses and hyphen. *)
Definition numberChar (c : Z) : bool :=
  (c =? 43) || JS.isDigit c || JS.isSpace c || (c =? 40) || (c =? 41) || (c =? 45).

(** [run] is the number labeled at offset [k] of [s]: a [Phone:] label
    starts at [k], [run] comes right after it, is made of 8 number
    characters or more, and ends where the number characters end. *)
Definition labeledRunAt (s : JS.str) (k : nat) (run : JS.str) : Prop :=
  exists pre label post,
    s = pre ++ label ++ run ++ post /\ length pre = k
    /\ RegexSpec.isPhoneLabel label
    /\ forallb numberChar run = true /\ (8 <= length run)%nat
    /\ match post with [] => True | c :: _ => numberChar c = false end.

(** The leftmost labeled number of [s]. *)
Definition firstLabeledRun (s run : JS.str) : Prop :=
  exists k, labeledRunAt s k run
            /\ forall k' run', labeledRunAt s k' run' -> (k <= k')%nat.






End PhoneSpec.

(** The parser as the specification words it, to compare with
    [AIService.parseDishName] and [AIService.parseDescription]: the first
    non-blank line without its markers, and the next lines joined. *)
Definition claimedDishName (text : JS.str) : JS.str :=
  match AIService.lines text with
  | l :: _ => JS.removeAll AIService.markdownMarker l
  | [] => []
  end.

Definition claimedDescription (text : JS.str) : JS.str :=
  match JS.sliceArr (AIService.lines text) 1 4 with
  | [] => AIService.genericDescription
  | ls => JS.join (js " ") ls
  end.

(** A line of white space only. *)
Definition isBlank (l : JS.str) : bool := forallb JS.isSpace l.

(** The lines of [ls] that are not blank. *)
Definition nonBlankLines (ls : list JS.str) : list JS.str :=
  filter (fun l => negb (isBlank l)) ls.

(** A response of the service whose text is missing or empty. *)
Definition textMissing (response : AIService.GenerateContentResponse) : bool :=
  match AIService.text response with
  | None => true
  | Some t => negb (JS.truthy t)
  end.

(** ** The invariant of the state machine *)

(** What the state, the result, the error message and the number of
    pipeline continuations still waiting must be to one another. *)
Definition sound (st : Types.AppState) (res : option Types.DishAnalysisResult)
    (err : option JS.str) (count : nat) : Prop :=
  match st with
  | Types.IDLE => res = None /\ err = None /\ count = 0%nat
  | Types.ANALYZING => res = None /\ err = None /\ count = 1%nat
  | Types.RESULTS => res <> None /\ err = None /\ count = 0%nat
  | Types.ERROR => res = None /\ err <> None /\ count = 0%nat
  | Types.CAPTURING => False
  end.

Definition pipelineCount (ts : list App.Task) : nat :=
  length (filter App.isPipeline ts).

Definition consistent (w : App.World) : Prop :=
  sound (App.appState (App.ui w)) (App.analysisResult (App.ui w))
        (App.errorMsg (App.ui w)) (pipelineCount (App.pending w)).

(** What a handler leaves of the machine, and how many pipeline
    continuations it starts. *)
Definition summary (o : App.Outcome)
  : Types.AppState * option Types.DishAnalysisResult * option JS.str * nat :=
  (App.appState (App.next o), App.analysisResult (App.next o),
   App.errorMsg (App.next o), pipelineCount (App.spawned o)).

(** A handler that leaves the machine alone and starts no pipeline
    continuation. *)
Definition bystander (h : App.Handler) : Prop :=
  forall s, summary (h s)
            = (App.appState s, App.analysisResult s, App.errorMsg s, 0%nat).

(** ** Runs that leave the leaving idle view alone *)

(** The event is a use of the idle view: a click on the capture button
    or a change of the file input. *)
Definition usesIdleView (e : App.Event) : bool :=
  match e with
  | App.ClickCapture | App.ChooseFile _ => true
  | _ => false
  end.

(** All along the run from [w], the idle view is used in [IDLE] only,
    never while it plays its exit animation. *)
Fixpoint orderly (w : App.World) (es : list App.Event) : bool :=
  match es with
  | [] => true
  | e :: es' =>
      (negb (usesIdleView e) || App.isState (App.appState (App.ui w)) Types.IDLE)
      && match App.step w e with
         | Some (w1, _) => orderly w1 es'
         | None => true
         end
  end.

(** The events that do not write [uploadedImageUrl]: all but a reset
    (line 141), the choice of a file (line 77) and the settling of an
    upload (line 84). *)
Definition keepsUpload (e : App.Event) : bool :=
  match e with
  | App.ClickReset | App.ChooseFile (Some _) | App.Settle _ (App.UploadSettled _) => false
  | _ => true
  end.

(** What holds of the state in every run: [RESULTS] has its result,
    [CAPTURING] is not entered, and no view is leaving in [IDLE] or away
    from the main view. *)
Definition tidy (s : App.State) : Prop :=
  (App.appState s = Types.RESULTS -> App.analysisResult s <> None)
  /\ App.appState s <> Types.CAPTURING
  /\ (App.appState s = Types.IDLE \/ App.mainView s = false -> App.idleLeaving s = None).

(** ** Concrete inputs *)

Module Scenario.
Import Types.

Definition place (name : JS.str) : Maps :=
  {| uri := js "https://maps.google.com/?cid=1"; title := name;
     phoneNumber := None; address := None; placeAnswerSources := None |}.

Definition noodleHouse : Maps := place (js "Noodle House").
Definition noodleChunk : GroundingChunk := {| maps := Some noodleHouse |}.

(** Scenario A of the specification. *)
Definition ramenText : JS.str :=
  js "Spicy Tonkotsu Ramen" ++ [10] ++ js "Rich pork broth with noodles." ++ [10]
  ++ js "Noodle House Phone: +971501234567".

(** The title, [near] right after it, blanks up to offset 401, and
    there a number labeled [Phone:]. *)
Definition farText (near far : JS.str) : JS.str :=
  js "Noodle House" ++ near ++ repeat 32 (389 - length near) ++ js "Phone: " ++ far.

Definition responseOf (t : option JS.str) (chunks : list GroundingChunk)
  : AIService.GenerateContentResponse :=
  {| AIService.text := t;
     AIService.candidates :=
       Some [ {| AIService.groundingMetadata :=
                   Some {| AIService.rawGroundingChunks := Some chunks |} |} ] |}.

Definition photo : App.File := {| App.fileName := js "dish.png" |}.
Definition dataUrl : JS.str := js "data:image/jpeg;base64,AAAA".
Definition denied : JsError := {| message := js "User denied Geolocation" |}.
Definition diner : App.User := {| App.email := Some (js "diner@example.com") |}.

Definition cafeChunk : GroundingChunk := {| maps := Some (place (js "Cafe X")) |}.
Definition menu : App.File := {| App.fileName := js "menu.pdf" |}.
Definition unreadable : JsError := {| message := js "Failed to load image" |}.
Definition unreachable : JsError := {| message := js "fetch failed" |}.

(** The response of scenario A, with a second place the text does not
    mention. *)
Definition ramenResponse : AIService.GenerateContentResponse :=
  responseOf (Some ramenText) [noodleChunk; cafeChunk].

Definition start : App.World := App.initialWorld (Some diner).

(** A photo is chosen, the idle view leaves, and the photo is
    converted. *)
Definition choose : list App.Event :=
  [ App.ClickCapture;
    App.ChooseFile (Some photo);
    App.ExitComplete;
    App.Settle 0 (App.ConvertSettled (Resolved dataUrl)) ].

(** ... the position is refused, and the analysis is about to settle:
    the upload and the analysis call are waiting. *)
Definition locate : list App.Event :=
  choose ++ [ App.Settle 1 (App.LocationSettled (Rejected denied)) ].

(** ... and the service answers, the upload still waiting. *)
Definition scan : list App.Event :=
  locate ++ [ App.Settle 1 (App.GenerateSettled (Resolved ramenResponse)) ].

(** The world a sequence of events leads to from [start], and the effects
    on the way. *)
Definition after (es : list App.Event) : App.World * list App.Effect :=
  match App.run start es with
  | Some r => r
  | None => (start, [])
  end.

End Scenario.

(* ------------------------------------------------------------------ *)
(** * Vocabulary of the further properties *)

(** Two chunks that differ at most in the phone number of their place. *)
Definition samePlace (c c' : Types.GroundingChunk) : Prop :=
  match Types.maps c, Types.maps c' with
  | None, None => True
  | Some m, Some m' =>
      Types.uri m' = Types.uri m /\ Types.title m' = Types.title m
      /\ Types.address m' = Types.address m
      /\ Types.placeAnswerSources m' = Types.placeAnswerSources m
  | _, _ => False
  end.

(** A chunk the enrichment step passes over: no place, or a place with an
    empty title. *)
Definition untitled (c : Types.GroundingChunk) : bool :=
  match Types.maps c with
  | Some m => negb (JS.truthy (Types.title m))
  | None => true
  end.

(** No white space at either end. *)
Definition trimmed (s : JS.str) : bool :=
  match s with
  | [] => true
  | c :: _ => negb (JS.isSpace c) && negb (JS.isSpace (last s c))
  end.

(** The characters either pattern can put into group 1: those of the
    labeled class, and the dot of the bare pattern's separators. *)
Definition dialChar (c : Z) : bool := Regex.phoneChar c || (c =? 46).

(** The characters that would end or split the [text] parameter of a
    link: space, [#], [&], [+], [/], [=], [?]. *)
Definition isDelimiter (c : Z) : bool :=
  (c =? 32) || (c =? 35) || (c =? 38) || (c =? 43) || (c =? 47) || (c =? 61) || (c =? 63).

Definition commaFree (s : JS.str) : bool := forallb (fun c => negb (c =? 44)) s.

(** [locData] of [processImage]: the position when there is one. *)
Definition positionOf (r : Settled Types.LocationData) : option Types.LocationData :=
  match r with Resolved l => Some l | Rejected _ => None end.

(** No code unit of [s] is half of a surrogate pair. *)
Definition surrogateFree (s : JS.str) : bool :=
  forallb (fun c => negb (URI.isHighSurrogate c || URI.isLowSurrogate c)) s.

Definition isWindowOpen (e : App.Effect) : bool :=
  match e with App.WindowOpen _ _ => true | _ => false end.
Definition isTrackLead (e : App.Effect) : bool :=
  match e with App.TrackLead _ => true | _ => false end.
Definition isOrderEffect (e : App.Effect) : bool := isWindowOpen e || isTrackLead e.
Definition isConvertStart (e : App.Effect) : bool :=
  match e with App.ConvertToJpeg _ => true | _ => false end.
Definition isGenerate (e : App.Effect) : bool :=
  match e with App.GenerateContent _ _ _ => true | _ => false end.

Definition count {A} (p : A -> bool) (l : list A) : nat := length (filter p l).

(** A continuation of a scan that has not yet called the service. *)
Definition beforeAnalysis (t : App.Task) : bool :=
  match t with App.AwaitConvert | App.AwaitLocation _ => true | _ => false end.
Definition isAwaitConvert (t : App.Task) : bool :=
  match t with App.AwaitConvert => true | _ => false end.

(** What a handler starts: conversions, uploads and analysis calls among
    its effects, and among the continuations it leaves, those that wait
    for a conversion and those that have yet to call the service. *)
Definition tally (o : App.Outcome) : nat * nat * nat * nat * nat :=
  (count isConvertStart (App.effects o), count App.isUploadStart (App.effects o),
   count isGenerate (App.effects o),
   count isAwaitConvert (App.spawned o), count beforeAnalysis (App.spawned o)).

Definition isFileChosen (e : App.Event) : bool :=
  match e with App.ChooseFile (Some _) => true | _ => false end.

(** The order behind the modal: while the modal is shown an order is
    pending, and a pending order names a phone and a restaurant. *)
Definition orderBacked (s : App.State) : Prop :=
  (App.showDeliveryModal s = true -> App.pendingOrder s <> None)
  /\ (forall po, App.pendingOrder s = Some po ->
        JS.truthy (App.phone po) = true /\ JS.truthy (App.title po) = true).

(* ------------------------------------------------------------------ *)
(** * Strings: [indexOf], [slice], [trim] *)

Lemma startsWith_iff (p s : JS.str) :
  JS.startsWith p s = true <-> exists post, s = p ++ post.
Proof.
  revert s; induction p as [|x p IH]; intros s; simpl.
  - split; [intros _; now exists s | reflexivity].
  - destruct s as [|y s].
    + split; [discriminate | intros [post H]; discriminate].
    + rewrite andb_true_iff, Z.eqb_eq, IH. split.
      * intros [-> [post ->]]. now exists post.
      * intros [post H]. injection H as -> ->. split; [reflexivity | now exists post].
Qed.

Lemma occursAt_iff (needle hay : JS.str) (i : nat) :
  occursAt needle hay i <->
  (i <= length hay)%nat /\ JS.startsWith needle (skipn i hay) = true.
Proof.
  unfold occursAt. rewrite startsWith_iff. split.
  - intros (pre & post & -> & <-). split.
    + rewrite length_app. lia.
    + exists post. rewrite skipn_app, skipn_all, Nat.sub_diag. reflexivity.
  - intros (Hi & post & H). exists (firstn i hay), post. split.
    + rewrite <- H. symmetry. apply firstn_skipn.
    + apply firstn_length_le. exact Hi.
Qed.

Lemma indexOfFrom_Some (needle hay : JS.str) (k i : nat) :
  JS.indexOfFrom needle hay k = Some i ->
  (k <= i)%nat /\ occursAt needle hay (i - k)
  /\ forall j, (j < i - k)%nat -> ~ occursAt needle hay j.
Proof.
  revert k; induction hay as [|c hay IH]; intros k; simpl.
  - destruct (JS.startsWith needle []) eqn:E; [|discriminate].
    intros [= <-]. rewrite Nat.sub_diag. split; [lia|]. split.
    + apply occursAt_iff. split; [simpl; lia | exact E].
    + intros j Hj; lia.
  - destruct (JS.startsWith needle (c :: hay)) eqn:E.
    + intros [= <-]. rewrite Nat.sub_diag. split; [lia|]. split.
      * apply occursAt_iff. split; [simpl; lia | exact E].
      * intros j Hj; lia.
    + intros H. apply IH in H as (Hk & Hocc & Hmin).
      split; [lia|]. replace (i - k)%nat with (S (i - S k)) by lia. split.
      * apply occursAt_iff in Hocc as [Hl Hs]. apply occursAt_iff. simpl. split; [lia | exact Hs].
      * intros [|j] Hj Hc.
        -- apply occursAt_iff in Hc as [_ Hc]. simpl in Hc. congruence.
        -- apply (Hmin j); [lia|]. apply occursAt_iff in Hc as [Hl Hc].
           apply occursAt_iff. simpl in Hl, Hc. split; [lia | exact Hc].
Qed.

Lemma indexOfFrom_None (needle hay : JS.str) (k : nat) :
  JS.indexOfFrom needle hay k = None -> forall j, ~ occursAt needle hay j.
Proof.
  revert k; induction hay as [|c hay IH]; intros k; simpl.
  - destruct (JS.startsWith needle []) eqn:E; [discriminate|].
    intros _ j Hc. apply occursAt_iff in Hc as [Hl Hc]. simpl in Hl.
    replace j with 0%nat in Hc by lia. simpl in Hc. congruence.
  - destruct (JS.startsWith needle (c :: hay)) eqn:E; [discriminate|].
    intros H [|j] Hc.
    + apply occursAt_iff in Hc as [_ Hc]. simpl in Hc. congruence.
    + apply (IH _ H j). apply occursAt_iff in Hc as [Hl Hc].
      apply occursAt_iff. simpl in Hl, Hc. split; [lia | exact Hc].
Qed.

Lemma firstOccurrence_unique (needle hay : JS.str) (i j : nat) :
  firstOccurrence needle hay i -> firstOccurrence needle hay j -> i = j.
Proof.
  intros [Hi Mi] [Hj Mj].
  destruct (Nat.lt_trichotomy i j) as [H | [H | H]]; [|exact H|].
  - exfalso. exact (Mj i H Hi).
  - exfalso. exact (Mi j H Hj).
Qed.

(** [indexOf] finds the first occurrence, and fails only when there is
    none. *)
Lemma indexOf_first (hay needle : JS.str) (i : nat) :
  JS.indexOf hay needle = Some i <-> firstOccurrence needle hay i.
Proof.
  unfold JS.indexOf. split.
  - intros H. apply indexOfFrom_Some in H as (_ & Hocc & Hmin).
    rewrite Nat.sub_0_r in Hocc, Hmin. split; assumption.
  - intros Hf. destruct (JS.indexOfFrom needle hay 0) as [k|] eqn:E.
    + apply indexOfFrom_Some in E as (_ & Hocc & Hmin).
      rewrite Nat.sub_0_r in Hocc, Hmin.
      f_equal. apply (firstOccurrence_unique needle hay); [split; assumption | exact Hf].
    + exfalso. destruct Hf as [Hocc _]. exact (indexOfFrom_None _ _ _ E i Hocc).
Qed.


Lemma slice_window (s : JS.str) (i n : nat) :
  JS.slice s i (i + n) = firstn n (skipn i s).
Proof. unfold JS.slice. f_equal. lia. Qed.

(* ------------------------------------------------------------------ *)
(** * The backtracking matcher against the patterns' denotation *)

Section Matcher.
Import Regex RegexSpec.

Lemma firstSome_Some {A B} (f : A -> option B) (l : list A) (b : B) :
  firstSome f l = Some b -> exists a, In a l /\ f a = Some b.
Proof.
  induction l as [|a l IH]; simpl; [discriminate|].
  destruct (f a) as [b'|] eqn:E.
  - intros [= <-]. exists a. auto.
  - intros H. destruct (IH H) as (a' & Hin & Hf). exists a'. auto.
Qed.

Lemma firstSome_None {A B} (f : A -> option B) (l : list A) :
  firstSome f l = None -> forall a, In a l -> f a = None.
Proof.
  induction l as [|a l IH]; simpl; [intros _ ? []|].
  destruct (f a) as [b'|] eqn:E; [discriminate|].
  intros H a' [<- | Hin]; [exact E | exact (IH H a' Hin)].
Qed.

Lemma In_candidates (g : Greed) (l m n : nat) :
  In n (candidates g l m) <-> (l <= n <= m)%nat.
Proof.
  unfold candidates. destruct g; [rewrite <- in_rev|]; rewrite in_seq; lia.
Qed.

Lemma runLength_cap (p : Z -> bool) (h : nat) (s : JS.str) :
  (runLength p (Some h) s <= h)%nat.
Proof.
  revert h; induction s as [|c s IH]; intros h; simpl; [lia|].
  destruct (p c); [|lia]. destruct h as [|h]; [lia|]. specialize (IH h). lia.
Qed.

Lemma runLength_prefix (p : Z -> bool) (cap : option nat) (s : JS.str) (n : nat) :
  (n <= runLength p cap s)%nat ->
  Forall (fun c => p c = true) (firstn n s) /\ length (firstn n s) = n.
Proof.
  revert cap s; induction n as [|n IH]; intros cap s Hn.
  - simpl. split; [constructor | reflexivity].
  - destruct s as [|c s]; simpl in Hn; [lia|].
    destruct (p c) eqn:Hc; [|lia].
    assert (exists cap', (n <= runLength p cap' s)%nat) as [cap' Hn'].
    { destruct cap as [[|h]|]; [lia | exists (Some h); lia | exists None; lia]. }
    destruct (IH cap' s Hn') as [Hall Hlen]. simpl. split.
    + constructor; assumption.
    + now rewrite Hlen.
Qed.

Lemma runLength_covers (p : Z -> bool) (cap : option nat) (seg rest : JS.str) :
  Forall (fun c => p c = true) seg ->
  match cap with Some h => (length seg <= h)%nat | None => True end ->
  (length seg <= runLength p cap (seg ++ rest))%nat.
Proof.
  intros Hall. revert cap. induction Hall as [|c seg Hc Hall IH]; intros cap Hcap; simpl.
  - lia.
  - rewrite Hc. destruct cap as [[|h]|]; simpl in Hcap.
    + lia.
    + specialize (IH (Some h)). simpl in IH. assert (length seg <= h)%nat by lia. apply IH in H. lia.
    + specialize (IH None I). lia.
Qed.

(** Whatever the matcher returns is denoted by the pattern and is a
    prefix of the input. *)
Lemma matchHere_sound (r : Pattern) (s : JS.str) (segs : list JS.str) :
  matchHere r s = Some segs ->
  denotes r segs /\ exists rest, s = concat segs ++ rest.
Proof.
  revert s segs; induction r as [|a r IH]; intros s segs; simpl.
  - intros [= <-]. split; [constructor | now exists s].
  - intros H. apply firstSome_Some in H as (n & Hin & Hn).
    apply In_candidates in Hin.
    destruct (matchHere r (skipn n s)) as [segs'|] eqn:E; [|discriminate].
    injection Hn as <-.
    destruct (IH _ _ E) as (Hden & rest & Hrest).
    destruct (runLength_prefix (accepts a) (hi a) s n) as [Hall Hlen]; [lia|].
    split.
    + constructor; [|exact Hden]. unfold segmentOk. rewrite Hlen.
      split; [exact Hall|]. split; [lia|].
      destruct (hi a) as [h|] eqn:Hh; [|exact I].
      pose proof (runLength_cap (accepts a) h s). lia.
    + exists rest. simpl. rewrite <- app_assoc, <- Hrest. symmetry. apply firstn_skipn.
Qed.

(** The matcher finds a match wherever the pattern denotes a prefix. *)
Lemma matchHere_complete (r : Pattern) (segs : list JS.str) (rest : JS.str) :
  denotes r segs -> matchHere r (concat segs ++ rest) <> None.
Proof.
  intros Hden. induction Hden as [|a seg r segs (Hall & Hlo & Hhi) Hden IH]; simpl.
  - discriminate.
  - intros Hnone.
    pose proof (firstSome_None _ _ Hnone (length seg)) as Hf.
    rewrite <- app_assoc in Hf.
    rewrite skipn_app, skipn_all, Nat.sub_diag in Hf. simpl in Hf.
    destruct (matchHere r (concat segs ++ rest)) eqn:E; [|now apply IH].
    assert (In (length seg) (candidates (greed a) (lo a)
              (runLength (accepts a) (hi a) (seg ++ concat segs ++ rest)))) as Hin.
    { apply In_candidates. split; [exact Hlo|]. apply runLength_covers; assumption. }
    specialize (Hf Hin). discriminate.
Qed.

Lemma execFrom_sound (r : Pattern) (s : JS.str) (k i : nat) (segs : list JS.str) :
  execFrom r s k = Some (i, segs) ->
  denotes r segs /\ exists pre post, s = pre ++ concat segs ++ post.
Proof.
  revert k; induction s as [|c s IH]; intros k; simpl.
  - destruct (matchHere r []) as [sg|] eqn:E; [|discriminate].
    intros [= <- <-]. destruct (matchHere_sound _ _ _ E) as (Hden & rest & Hrest).
    split; [exact Hden|]. exists [], rest. exact Hrest.
  - destruct (matchHere r (c :: s)) as [sg|] eqn:E.
    + intros [= <- <-]. destruct (matchHere_sound _ _ _ E) as (Hden & rest & Hrest).
      split; [exact Hden|]. exists [], rest. exact Hrest.
    + intros H. destruct (IH _ H) as (Hden & pre & post & Hs).
      split; [exact Hden|]. exists (c :: pre), post. simpl. now rewrite <- Hs.
Qed.

Lemma execFrom_complete (r : Pattern) (pre : JS.str) (segs : list JS.str)
      (post : JS.str) (k : nat) :
  denotes r segs -> execFrom r (pre ++ concat segs ++ post) k <> None.
Proof.
  intros Hden. revert k; induction pre as [|c pre IH]; intros k.
  - simpl app. pose proof (matchHere_complete r segs post Hden) as Hm.
    destruct (concat segs ++ post) as [|x t] eqn:Es; simpl;
      destruct (matchHere r _); try discriminate; now elim Hm.
  - simpl. destruct (matchHere r (c :: pre ++ concat segs ++ post)); [discriminate|].
    apply IH.
Qed.

Lemma matchGroup1_Some (r : Pattern) (s g : JS.str) :
  matchGroup1 r s = Some g -> captures r s g.
Proof.
  unfold matchGroup1, exec. destruct (execFrom r s 0) as [[i segs]|] eqn:E; [|discriminate].
  intros [= <-]. apply execFrom_sound in E as (Hden & pre & post & Hs).
  exists pre, segs, post. auto.
Qed.

Lemma matchGroup1_None (r : Pattern) (s : JS.str) :
  matchGroup1 r s = None <-> ~ occurs r s.
Proof.
  unfold matchGroup1, exec. split.
  - destruct (execFrom r s 0) as [[i segs]|] eqn:E; [discriminate|].
    intros _ (pre & segs & post & -> & Hden).
    exact (execFrom_complete r pre segs post 0 Hden E).
  - intros Hno. destruct (execFrom r s 0) as [[i segs]|] eqn:E; [|reflexivity].
    exfalso. apply Hno. apply execFrom_sound in E as (Hden & pre & post & Hs).
    exists pre, segs, post. auto.
Qed.

Lemma segment_one (p : Z -> bool) (cap : bool) (seg : JS.str) :
  segmentOk (one p cap) seg -> exists c, seg = [c] /\ p c = true.
Proof.
  intros (Hall & Hlo & Hhi). simpl in *.
  destruct seg as [|c [|d seg]]; simpl in *; try lia.
  exists c. split; [reflexivity|]. now inversion Hall.
Qed.

Lemma letter_cases (u c : Z) : letter u c = true -> c = u \/ c = u + 32.
Proof. unfold letter. rewrite orb_true_iff, !Z.eqb_eq. tauto. Qed.

(** What group 1 of the labeled pattern holds is a labeled number. *)
Lemma labeled_captures (s g : JS.str) :
  captures labeled s g -> labeledNumber s g.
Proof.
  intros (pre & segs & post & Hs & Hden & Hg). unfold denotes, labeled in Hden.
  repeat match goal with
         | H : Forall2 _ (_ :: _) _ |- _ => inversion H; subst; clear H
         | H : Forall2 _ [] _ |- _ => inversion H; subst; clear H
         end.
  repeat match goal with
         | H : segmentOk (one _ _) _ |- _ =>
             apply segment_one in H; destruct H as (? & -> & ?)
         end.
  repeat match goal with
         | H : letter _ _ = true |- _ => apply letter_cases in H
         end.
  match goal with H : chr 58 ?c = true |- _ => unfold chr in H; apply Z.eqb_eq in H; subst c end.
  match goal with
  | Hw : segmentOk (star JS.isSpace false) ?ws, Hn : segmentOk (atLeast 8 phoneChar true) ?num |- _ =>
      destruct Hw as (Hws & _ & _); destruct Hn as (Hnum & Hlen & _);
      exists pre; eexists [_; _; _; _; _; 58]; exists ws, post
  end.
  simpl in *. rewrite !app_nil_r, <- app_assoc.
  split; [reflexivity|].
  split; [|split; [assumption | split; assumption]].
  split; [|reflexivity]. simpl.
  repeat (constructor; [assumption|]). constructor.
Qed.



Lemma bare_captures_truthy (s g : JS.str) : captures bare s g -> JS.truthy g = true.
Proof.
  intros (pre & segs & post & Hs & Hden & ->). unfold denotes, bare in Hden.
  inversion Hden as [|a seg r' segs' Hseg Hrest]; subst.
  apply segment_one in Hseg as (c & -> & _). reflexivity.
Qed.

Lemma labeledNumber_truthy (s g : JS.str) : labeledNumber s g -> JS.truthy g = true.
Proof.
  intros (pre & label & ws & post & _ & _ & _ & _ & Hlen).
  destruct g; [simpl in Hlen; lia | reflexivity].
Qed.

Lemma bare_group1 (segs : list JS.str) :
  denotes bare segs -> group1 bare segs = concat segs.
Proof.
  unfold denotes, bare. intros H.
  repeat match goal with
         | H : Forall2 _ (_ :: _) _ |- _ => inversion H; subst; clear H
         | H : Forall2 _ [] _ |- _ => inversion H; subst; clear H
         end.
  reflexivity.
Qed.

End Matcher.

(* ------------------------------------------------------------------ *)
(** * Which match the search returns *)

Section Returned.
Import Regex RegexSpec PhoneSpec.

(** The search stops at the first place where the pattern matches. *)
Lemma execFrom_first (r : Pattern) (s : JS.str) (k i : nat) (segs : list JS.str) :
  execFrom r s k = Some (i, segs) ->
  exists j, i = (k + j)%nat /\ (j <= length s)%nat
            /\ matchHere r (skipn j s) = Some segs
            /\ forall j', (j' < j)%nat -> matchHere r (skipn j' s) = None.
Proof.
  revert k; induction s as [|c s IH]; intros k; simpl.
  - destruct (matchHere r []) as [sg|] eqn:E; [|discriminate].
    intros [= <- <-]. exists 0%nat. repeat split; try lia. exact E.
  - destruct (matchHere r (c :: s)) as [sg|] eqn:E.
    + intros [= <- <-]. exists 0%nat. repeat split; try lia. exact E.
    + intros H. destruct (IH _ H) as (j & -> & Hj & Hm & Hbefore).
      exists (S j). repeat split; try lia; [exact Hm|].
      intros [|j'] Hlt; [exact E|]. apply Hbefore. lia.
Qed.










(** ** The labeled number *)

Lemma runLength_stops (p : Z -> bool) (s : JS.str) :
  match skipn (runLength p None s) s with
  | [] => True
  | c :: _ => p c = false
  end.
Proof.
  induction s as [|c s IH]; simpl; [exact I|].
  destruct (p c) eqn:E; [exact IH | exact E].
Qed.

Lemma candidates_greedy_head (lo m : nat) :
  (lo <= m)%nat -> candidates Greedy lo m = m :: rev (seq lo (m - lo)).
Proof.
  intros H. unfold candidates. replace (S m - lo)%nat with (S (m - lo)) by lia.
  rewrite seq_S, rev_app_distr. simpl. f_equal. lia.
Qed.

(** A pattern that ends in a greedy part without upper bound matches up
    to where the characters of that part end. *)
Lemma matchHere_last (r : Pattern) (a : Atom) (s : JS.str) (segs : list JS.str) :
  greed a = Greedy -> hi a = None ->
  matchHere (r ++ [a]) s = Some segs ->
  exists post, s = concat segs ++ post
               /\ match post with [] => True | c :: _ => accepts a c = false end.
Proof.
  intros Hg Hh. revert s segs; induction r as [|b r IH]; intros s segs; simpl.
  - rewrite Hg, Hh. intros H.
    destruct (Nat.le_gt_cases (lo a) (runLength (accepts a) None s)) as [Hle | Hgt].
    + rewrite (candidates_greedy_head _ _ Hle) in H. simpl in H. injection H as <-.
      exists (skipn (runLength (accepts a) None s) s). simpl. rewrite app_nil_r.
      split; [symmetry; apply firstn_skipn | apply runLength_stops].
    + apply firstSome_Some in H as (n & Hin & _). apply In_candidates in Hin. lia.
  - intros H. apply firstSome_Some in H as (n & _ & Hn).
    destruct (matchHere (r ++ [a]) (skipn n s)) as [segs1|] eqn:E; [|discriminate].
    injection Hn as <-. destruct (IH _ _ E) as (post & Hpost & Hstop).
    exists post. split; [|exact Hstop].
    simpl. rewrite <- app_assoc, <- Hpost. symmetry. apply firstn_skipn.
Qed.


Lemma isSpace_numberChar (c : Z) : JS.isSpace c = true -> numberChar c = true.
Proof. unfold numberChar. intros ->. now rewrite !orb_true_r. Qed.

(** A labeled number at the head of a string is a match of the labeled
    pattern there. *)
Lemma labeledRun_denotes (label run : JS.str) :
  isPhoneLabel label -> forallb numberChar run = true -> (8 <= length run)%nat ->
  exists segs, denotes labeled segs /\ concat segs = label ++ run.
Proof.
  intros (Hlab & Hcolon) Hrun Hlen.
  destruct label as [|c1 [|c2 [|c3 [|c4 [|c5 rest]]]]]; simpl in Hlab, Hcolon;
    try discriminate.
  subst rest. change (JS.lit "PHONE") with [80; 72; 79; 78; 69] in Hlab.
  repeat match goal with H : Forall2 _ (_ :: _) (_ :: _) |- _ => inversion H; subst; clear H end.
  exists [[c1]; [c2]; [c3]; [c4]; [c5]; [58]; []; run]. split.
  - unfold denotes, labeled.
    repeat (constructor;
            [ unfold segmentOk; simpl; split;
              [ try (constructor; [|constructor]); try assumption;
                unfold letter, chr; rewrite ?orb_true_iff, ?Z.eqb_eq; auto;
                try (apply Forall_forall; apply forallb_forall; exact Hrun)
              | split; [lia | try exact I; lia] ] | ]).
    constructor.
  - simpl. now rewrite app_nil_r.
Qed.

(** What the labeled pattern returns: the leftmost labeled number, less
    some of the white space it starts with. *)
Lemma labeled_firstRun (w g : JS.str) :
  matchGroup1 labeled w = Some g ->
  exists run ws, firstLabeledRun w run /\ run = ws ++ g
                 /\ forallb JS.isSpace ws = true.
Proof.
  unfold matchGroup1, exec. destruct (execFrom labeled w 0) as [[i segs]|] eqn:E; [|discriminate].
  intros [= <-]. apply execFrom_first in E as (j & -> & Hj & Hm & Hbefore). simpl.
  destruct (matchHere_last
              [one (letter 80) false; one (letter 72) false; one (letter 79) false;
               one (letter 78) false; one (letter 69) false; one (chr 58) false;
               star JS.isSpace false]
              (atLeast 8 phoneChar true) _ segs eq_refl eq_refl Hm)
    as (post & Hpost & Hstop).
  destruct (matchHere_sound _ _ _ Hm) as (Hden & _).
  unfold denotes, labeled in Hden.
  repeat match goal with
         | H : Forall2 _ (_ :: _) _ |- _ => inversion H; subst; clear H
         | H : Forall2 _ [] _ |- _ => inversion H; subst; clear H
         end.
  repeat match goal with
         | H : segmentOk (one _ _) _ |- _ =>
             apply segment_one in H; destruct H as (? & -> & ?)
         end.
  repeat match goal with
         | H : letter _ _ = true |- _ => apply letter_cases in H
         end.
  match goal with H : chr 58 ?c = true |- _ => unfold chr in H; apply Z.eqb_eq in H; subst c end.
  match goal with
  | Hw : segmentOk (star JS.isSpace false) ?ws,
    Hn : segmentOk (atLeast 8 phoneChar true) ?num |- _ =>
      destruct Hw as (Hws & _ & _); destruct Hn as (Hnum & Hlen & _);
      rename ws into spaces; rename num into number
  end.
  simpl in Hws, Hnum, Hlen, Hpost, Hstop. rewrite app_nil_r in Hpost.
  rewrite Forall_forall in Hws. rewrite Forall_forall in Hnum.
  assert (forallb JS.isSpace spaces = true) as Hsp by (apply forallb_forall; exact Hws).
  exists (spaces ++ number), spaces. simpl. rewrite app_nil_r.
  split; [|split; [reflexivity | exact Hsp]].
  exists j. split.
  - exists (firstn j w). eexists [_; _; _; _; _; 58]. exists post.
    split; [|split; [rewrite length_firstn; apply Nat.min_l; exact Hj |]].
    { rewrite <- (firstn_skipn j w) at 1. f_equal. rewrite Hpost. simpl.
      now rewrite <- !app_assoc. }
    split.
    { split; [|reflexivity]. simpl. change (JS.lit "PHONE") with [80; 72; 79; 78; 69].
      repeat (constructor; [assumption|]). constructor. }
    split.
    { rewrite forallb_app. apply andb_true_iff. split.
      - apply forallb_forall. intros c Hc. apply isSpace_numberChar. now apply Hws.
      - apply forallb_forall. exact Hnum. }
    split; [rewrite length_app; lia | exact Hstop].
  - intros k' run' (pre' & label' & post' & Hw & Hk' & Hlab' & Hrun' & Hlen' & _).
    destruct (Nat.le_gt_cases j k') as [Hle | Hlt]; [exact Hle|]. exfalso.
    specialize (Hbefore _ Hlt).
    destruct (labeledRun_denotes label' run' Hlab' Hrun' Hlen') as (segs' & Hden' & Hcat).
    rewrite Hw, <- Hk', skipn_app, skipn_all, Nat.sub_diag in Hbefore. simpl in Hbefore.
    rewrite app_assoc, <- Hcat in Hbefore.
    exact (matchHere_complete labeled segs' post' Hden' Hbefore).
Qed.




Lemma trim_leading (ws g : JS.str) :
  forallb JS.isSpace ws = true -> JS.trim (ws ++ g) = JS.trim g.
Proof.
  intros H. unfold JS.trim. f_equal. f_equal. f_equal.
  induction ws as [|c ws IH]; [reflexivity|].
  simpl in *. apply andb_true_iff in H as [-> H]. now apply IH.
Qed.

End Returned.

(* ------------------------------------------------------------------ *)
(** * The enrichment step *)

Section Enrichment.
Import Types AIService Regex RegexSpec.

Lemma phoneMatch_labeled (w : JS.str) :
  occurs labeled w ->
  exists g, phoneMatch w = Some g /\ labeledNumber w g.
Proof.
  intros Hocc. unfold phoneMatch.
  destruct (matchGroup1 labeled w) as [g|] eqn:E.
  - exists g. split; [reflexivity|]. now apply labeled_captures, matchGroup1_Some.
  - exfalso. apply matchGroup1_None in E. exact (E Hocc).
Qed.

Lemma phoneMatch_bare (w : JS.str) :
  ~ occurs labeled w -> occurs bare w ->
  exists g, phoneMatch w = Some g /\ captures bare w g.
Proof.
  intros Hno Hocc. unfold phoneMatch.
  apply matchGroup1_None in Hno. rewrite Hno.
  destruct (matchGroup1 bare w) as [g|] eqn:E.
  - exists g. split; [reflexivity|]. now apply matchGroup1_Some.
  - exfalso. apply matchGroup1_None in E. exact (E Hocc).
Qed.

Lemma phoneMatch_none (w : JS.str) :
  ~ occurs labeled w -> ~ occurs bare w -> phoneMatch w = None.
Proof.
  intros Hl Hb. unfold phoneMatch.
  apply matchGroup1_None in Hl, Hb. now rewrite Hl, Hb.
Qed.

Lemma phoneMatch_truthy (w g : JS.str) : phoneMatch w = Some g -> JS.truthy g = true.
Proof.
  unfold phoneMatch. destruct (matchGroup1 labeled w) as [g'|] eqn:E.
  - intros [= <-]. apply matchGroup1_Some, labeled_captures in E.
    exact (labeledNumber_truthy _ _ E).
  - intros H. apply matchGroup1_Some in H. exact (bare_captures_truthy _ _ H).
Qed.

(** The step on a chunk whose title occurs first at [i]. *)
Lemma enrichChunk_found (text : JS.str) (chunk : GroundingChunk) (m : Maps) (i : nat) :
  maps chunk = Some m -> JS.truthy (title m) = true ->
  firstOccurrence (title m) text i ->
  enrichChunk text chunk =
  match phoneMatch (firstn 400 (skipn i text)) with
  | Some g => withPhone m (JS.trim g)
  | None => chunk
  end.
Proof.
  intros Hm Ht Hi. unfold enrichChunk. rewrite Hm, Ht.
  apply indexOf_first in Hi. rewrite Hi, slice_window.
  destruct (phoneMatch _) as [g|] eqn:E; [|reflexivity].
  now rewrite (phoneMatch_truthy _ _ E).
Qed.


End Enrichment.



(** Scenario A: the number after [Phone:] is attached to the chunk. *)
Example enrichChunk_ramen :
  AIService.enrichChunk Scenario.ramenText Scenario.noodleChunk
  = AIService.withPhone Scenario.noodleHouse (js "+971501234567").
Proof. vm_compute. reflexivity. Qed.

(** The leftmost labeled number of scenario A. *)
Example ramen_first_labeled_run :
  exists run,
    PhoneSpec.firstLabeledRun Scenario.ramenText run
    /\ JS.trim run = js "+971501234567".
Proof.
  assert (Regex.matchGroup1 Regex.labeled Scenario.ramenText = Some (js "+971501234567"))
    as E by (vm_compute; reflexivity).
  destruct (labeled_firstRun _ _ E) as (run & ws & Hrun & -> & Hws).
  exists (ws ++ js "+971501234567"). split; [exact Hrun|].
  now rewrite (trim_leading ws _ Hws).
Qed.

(** The label wins over a bare number that comes first in the window. *)
Example enrichChunk_precedence :
  AIService.enrichChunk
    (js "Noodle House, call +97142223333 or Phone: (04) 555 1234")
    Scenario.noodleChunk
  = AIService.withPhone Scenario.noodleHouse (js "(04) 555 1234").
Proof. vm_compute. reflexivity. Qed.

(** Of two labeled numbers the first is attached, whole. *)
Example enrichChunk_first_label :
  AIService.enrichChunk
    (js "Noodle House Phone: +971501234567, Cafe X Phone: +97142223333")
    Scenario.noodleChunk
  = AIService.withPhone Scenario.noodleHouse (js "+971501234567").
Proof. vm_compute. reflexivity. Qed.

(** Of a bare number the search takes as much as the pattern allows. *)
Example enrichChunk_bare :
  AIService.enrichChunk (js "Noodle House, call +971 (50) 123-4567 now")
                        Scenario.noodleChunk
  = AIService.withPhone Scenario.noodleHouse (js "+971 (50) 123-4567").
Proof. vm_compute. reflexivity. Qed.

(** Scenario C: a title that is not in the text. *)
Example enrichChunk_absent :
  let chunk := {| Types.maps := Some (Scenario.place (js "Cafe X")) |} in
  AIService.enrichChunk Scenario.ramenText chunk = chunk.
Proof. vm_compute. reflexivity. Qed.

(* ------------------------------------------------------------------ *)
(** * The window of the enrichment step *)

Section Window.
Import Types AIService Regex RegexSpec.

Lemma dropWhile_suffix (p : Z -> bool) (s : JS.str) :
  exists a, s = a ++ JS.dropWhile p s.
Proof.
  induction s as [|c s [a IH]]; simpl.
  - now exists [].
  - destruct (p c).
    + exists (c :: a). simpl. now rewrite <- IH.
    + now exists [].
Qed.

Lemma trim_infix (s : JS.str) : exists a b, s = a ++ JS.trim s ++ b.
Proof.
  unfold JS.trim. destruct (dropWhile_suffix JS.isSpace s) as [a Ha].
  destruct (dropWhile_suffix JS.isSpace (rev (JS.dropWhile JS.isSpace s))) as [b Hb].
  exists a, (rev b). rewrite <- rev_app_distr, <- Hb, rev_involutive. exact Ha.
Qed.

Lemma phoneMatch_infix (w g : JS.str) :
  phoneMatch w = Some g -> exists a b, w = a ++ g ++ b.
Proof.
  unfold phoneMatch. destruct (matchGroup1 labeled w) as [g'|] eqn:E.
  - intros [= <-]. apply matchGroup1_Some, labeled_captures in E.
    destruct E as (pre & label & ws & post & Hw & _).
    exists (pre ++ label ++ ws), post. now rewrite <- !app_assoc.
  - intros H. apply matchGroup1_Some in H as (pre & segs & post & Hw & Hden & ->).
    exists pre, post. now rewrite (bare_group1 segs Hden).
Qed.

Lemma infix_readBetween (text a p b : JS.str) (i n : nat) :
  firstn n (skipn i text) = a ++ p ++ b -> readBetween text p i (i + n).
Proof.
  intros Hw. exists (i + length a)%nat.
  assert (length (a ++ p ++ b) <= n)%nat as Hlen.
  { rewrite <- Hw. rewrite length_firstn. lia. }
  rewrite !length_app in Hlen. repeat split; [lia | lia |].
  rewrite Nat.add_comm, <- skipn_skipn.
  rewrite <- (firstn_skipn n (skipn i text)), Hw.
  rewrite <- !app_assoc, skipn_app, skipn_all, Nat.sub_diag. simpl.
  rewrite firstn_app, firstn_all, Nat.sub_diag. simpl. apply app_nil_r.
Qed.

(** The step reads the text only through the title's offset and the 400
    code units from there on. *)
Lemma enrichChunk_window (text1 text2 : JS.str) (chunk : GroundingChunk) (i : nat) (m : Maps) :
  maps chunk = Some m ->
  firstOccurrence (title m) text1 i ->
  firstOccurrence (title m) text2 i ->
  firstn (i + 400) text1 = firstn (i + 400) text2 ->
  enrichChunk text1 chunk = enrichChunk text2 chunk.
Proof.
  intros Hm H1 H2 Heq. unfold enrichChunk. rewrite Hm.
  destruct (JS.truthy (title m)); [|reflexivity].
  apply indexOf_first in H1, H2. rewrite H1, H2, !slice_window.
  now rewrite !firstn_skipn_comm, Heq.
Qed.

End Window.

(** C2. Let the title of a chunk first occur at offset [i] of the raw text.
    Two texts that agree on every offset below [i + 401] give the chunk the
    same enrichment, so nothing at offset [i + 401] or later is ever
    attached; and a number the step does attach is read from the text
    between offsets [i] and [i + 400]. *)
Theorem enrichChunk_window_bound
    (text other : JS.str) (chunk : Types.GroundingChunk) (m : Types.Maps) (i : nat) :
  Types.maps chunk = Some m ->
  firstOccurrence (Types.title m) text i ->
  firstOccurrence (Types.title m) other i ->
  firstn (i + 401) text = firstn (i + 401) other ->
  AIService.enrichChunk text chunk = AIService.enrichChunk other chunk
  /\
  (AIService.enrichChunk text chunk <> chunk ->
   exists p, AIService.enrichChunk text chunk = AIService.withPhone m p
             /\ readBetween text p i (i + 400)).
Proof.
  intros Hm Hi Ho Heq. split.
  - apply (enrichChunk_window text other chunk i m Hm Hi Ho).
    assert (forall t : JS.str, firstn (i + 400) t = firstn (i + 400) (firstn (i + 401) t)) as Hcut.
    { intros t. rewrite firstn_firstn. f_equal. lia. }
    now rewrite (Hcut text), (Hcut other), Heq.
  - intros Hch. destruct (JS.truthy (Types.title m)) eqn:Ht.
    + rewrite (enrichChunk_found text chunk m i Hm Ht Hi) in *.
      destruct (AIService.phoneMatch (firstn 400 (skipn i text))) as [g|] eqn:E;
        [|now elim Hch].
      exists (JS.trim g). split; [reflexivity|].
      destruct (phoneMatch_infix _ _ E) as (a & b & Hw).
      destruct (trim_infix g) as (a' & b' & Hg).
      apply (infix_readBetween text (a ++ a') (JS.trim g) (b' ++ b)).
      rewrite Hw at 1. rewrite Hg at 1. now rewrite <- !app_assoc.
    + exfalso. apply Hch. unfold AIService.enrichChunk. now rewrite Hm, Ht.
Qed.

Lemma enrichChunk_window_bound_witness :
  let text := Scenario.farText (js " Phone: +971501234567.") (js "+971501111111") in
  let other := Scenario.farText (js " Phone: +971501234567.") (js "+971502222222") in
  AIService.enrichChunk text Scenario.noodleChunk
  = AIService.enrichChunk other Scenario.noodleChunk
  /\
  (AIService.enrichChunk text Scenario.noodleChunk <> Scenario.noodleChunk ->
   exists p,
     AIService.enrichChunk text Scenario.noodleChunk
     = AIService.withPhone Scenario.noodleHouse p
     /\ readBetween text p 0 (0 + 400)).
Proof.
  intros text other.
  apply (enrichChunk_window_bound text other Scenario.noodleChunk Scenario.noodleHouse 0).
  - reflexivity.
  - apply indexOf_first. vm_compute. reflexivity.
  - apply indexOf_first. vm_compute. reflexivity.
  - vm_compute. reflexivity.
Defined.

(** With a number at hand in the window, the one at offset 401 changes
    nothing. *)
Example enrichChunk_near_number :
  AIService.enrichChunk
    (Scenario.farText (js " Phone: +971501234567.") (js "+971501111111"))
    Scenario.noodleChunk
  = AIService.withPhone Scenario.noodleHouse (js "+971501234567").
Proof. vm_compute. reflexivity. Qed.

(** A labeled number that starts at offset 401 from the title is not
    attached. *)
Example enrichChunk_beyond_window :
  AIService.enrichChunk (Scenario.farText [] (js "+971501111111")) Scenario.noodleChunk
  = Scenario.noodleChunk.
Proof. vm_compute. reflexivity. Qed.

(* ------------------------------------------------------------------ *)
(** * The parser of the response text *)

Section Parser.
Import AIService.

Lemma dropWhile_nil (p : Z -> bool) (s : JS.str) :
  JS.dropWhile p s = [] <-> forallb p s = true.
Proof.
  induction s as [|c s IH]; simpl; [tauto|].
  destruct (p c); simpl; [exact IH|]. split; discriminate.
Qed.

Lemma dropWhile_head (p : Z -> bool) (s : JS.str) (c : Z) (t : JS.str) :
  JS.dropWhile p s = c :: t -> p c = false.
Proof.
  induction s as [|x s IH]; simpl; [discriminate|].
  destruct (p x) eqn:E; [exact IH|]. now intros [= <- _].
Qed.

Lemma forallb_rev (p : Z -> bool) (s : JS.str) : forallb p (rev s) = forallb p s.
Proof.
  induction s as [|c s IH]; simpl; [reflexivity|].
  rewrite forallb_app, IH. simpl. rewrite andb_true_r. apply andb_comm.
Qed.

Lemma trim_nil (s : JS.str) : JS.trim s = [] <-> isBlank s = true.
Proof.
  unfold JS.trim, isBlank. split.
  - intros H. apply (f_equal (@rev Z)) in H. rewrite rev_involutive in H. simpl in H.
    apply dropWhile_nil in H. rewrite forallb_rev in H.
    destruct (JS.dropWhile JS.isSpace s) as [|c t] eqn:E.
    + now apply dropWhile_nil.
    + apply dropWhile_head in E. simpl in H. rewrite E in H. discriminate.
  - intros H. apply dropWhile_nil in H. now rewrite H.
Qed.

Lemma nonBlank_isBlank (l : JS.str) : nonBlank l = negb (isBlank l).
Proof.
  unfold nonBlank. destruct (isBlank l) eqn:E.
  - apply trim_nil in E. now rewrite E.
  - destruct (JS.trim l) as [|c t] eqn:Et; [|reflexivity].
    apply trim_nil in Et. congruence.
Qed.

Lemma lines_nonBlankLines (text : JS.str) :
  lines text = nonBlankLines (JS.split 10 text).
Proof.
  unfold lines, nonBlankLines. apply filter_ext. exact nonBlank_isBlank.
Qed.

Lemma nonBlankLines_blanks (blanks : list JS.str) :
  forallb isBlank blanks = true -> nonBlankLines blanks = [].
Proof.
  induction blanks as [|b bs IH]; simpl; [reflexivity|].
  rewrite andb_true_iff. intros [Hb Hbs]. rewrite Hb. simpl. exact (IH Hbs).
Qed.

Lemma orElse_trim (s d : JS.str) :
  JS.orElse (JS.trim s) d = if isBlank s then d else JS.trim s.
Proof.
  unfold JS.orElse. destruct (isBlank s) eqn:E.
  - apply trim_nil in E. now rewrite E.
  - destruct (JS.trim s) as [|c t] eqn:Et; [|reflexivity].
    apply trim_nil in Et. congruence.
Qed.

Lemma join_not_blank (sep x : JS.str) (xs : list JS.str) :
  isBlank x = false -> isBlank (JS.join sep (x :: xs)) = false.
Proof.
  intros Hx. destruct xs as [|y ys]; [exact Hx|].
  change (JS.join sep (x :: y :: ys)) with (x ++ sep ++ JS.join sep (y :: ys)).
  unfold isBlank in *. now rewrite forallb_app, Hx.
Qed.

Lemma nonBlankLines_head (ls : list JS.str) (n : nat) (x : JS.str) (xs : list JS.str) :
  firstn n (nonBlankLines ls) = x :: xs -> isBlank x = false.
Proof.
  intros H. assert (In x (nonBlankLines ls)) as Hin.
  { rewrite <- (firstn_skipn n (nonBlankLines ls)), H. now left. }
  apply filter_In in Hin as [_ Hx]. now apply negb_true_iff.
Qed.

Lemma nonBlankLines_first (blanks : list JS.str) (l : JS.str) (rest : list JS.str) :
  forallb isBlank blanks = true -> isBlank l = false ->
  nonBlankLines (blanks ++ l :: rest) = l :: nonBlankLines rest.
Proof.
  intros Hb Hl. unfold nonBlankLines. rewrite filter_app.
  fold (nonBlankLines blanks). rewrite (nonBlankLines_blanks blanks Hb).
  simpl. now rewrite Hl.
Qed.

Lemma sliceArr_next (l : JS.str) (ls : list JS.str) :
  JS.sliceArr (l :: ls) 1 4 = firstn 3 ls.
Proof. reflexivity. Qed.

End Parser.

(** C3, as amended.  Cut the text at line feeds.  If [l] is the first line
    that is not blank, [dishName] is [l] without [*] and [#] and then
    trimmed, or ["Unknown Dish"] when nothing is left; [description] is the
    next non-blank lines, three at most, joined with single spaces and
    then trimmed, or the generic description when no such line remains.
    If every line is blank, both are their fallbacks. *)
Theorem parse_spec (text : JS.str) :
  (forall blanks l rest,
     JS.split 10 text = blanks ++ l :: rest ->
     forallb isBlank blanks = true ->
     isBlank l = false ->
     AIService.parseDishName text
     = JS.orElse (JS.trim (JS.removeAll AIService.markdownMarker l)) AIService.unknownDish
     /\ AIService.parseDescription text
        = match firstn 3 (nonBlankLines rest) with
          | [] => AIService.genericDescription
          | next => JS.trim (JS.join (js " ") next)
          end)
  /\
  (forallb isBlank (JS.split 10 text) = true ->
   AIService.parseDishName text = AIService.unknownDish
   /\ AIService.parseDescription text = AIService.genericDescription).
Proof.
  unfold AIService.parseDishName, AIService.parseDescription.
  rewrite lines_nonBlankLines. split.
  - intros blanks l rest Hsplit Hblanks Hl.
    rewrite Hsplit, (nonBlankLines_first blanks l rest Hblanks Hl), sliceArr_next.
    split; [reflexivity|].
    destruct (firstn 3 (nonBlankLines rest)) as [|x xs] eqn:E; [reflexivity|].
    rewrite orElse_trim, join_not_blank; [reflexivity|].
    exact (nonBlankLines_head rest 3 x xs E).
  - intros Hall. now rewrite (nonBlankLines_blanks _ Hall).
Qed.

Lemma parse_spec_witness :
  (AIService.parseDishName Scenario.ramenText = js "Spicy Tonkotsu Ramen"
   /\ AIService.parseDescription Scenario.ramenText
      = js "Rich pork broth with noodles. Noodle House Phone: +971501234567")
  /\
  (AIService.parseDishName (js "   ") = js "Unknown Dish"
   /\ AIService.parseDescription (js "   ") = js "Delicious culinary creation identified.").
Proof.
  split.
  - apply (proj1 (parse_spec Scenario.ramenText)
             [] (js "Spicy Tonkotsu Ramen")
             [js "Rich pork broth with noodles."; js "Noodle House Phone: +971501234567"]);
      reflexivity.
  - apply (proj2 (parse_spec (js "   "))). reflexivity.
Defined.

(** C3 as the specification words it does not hold: the heading marker
    leaves a blank that the code trims, a line of markers alone makes the
    code fall back to ["Unknown Dish"], and the joined description is
    trimmed as well. *)
Lemma parse_not_as_claimed :
  AIService.parseDishName (js "# Ramen") <> claimedDishName (js "# Ramen")
  /\ AIService.parseDishName (js "***") <> claimedDishName (js "***")
  /\ AIService.parseDescription (js "Ramen" ++ [10] ++ js " Rich broth. ")
     <> claimedDescription (js "Ramen" ++ [10] ++ js " Rich broth. ").
Proof. vm_compute. repeat split; discriminate. Qed.

Example parseDishName_heading : AIService.parseDishName (js "# Ramen") = js "Ramen".
Proof. vm_compute. reflexivity. Qed.

Example claimedDishName_heading : claimedDishName (js "# Ramen") = js " Ramen".
Proof. vm_compute. reflexivity. Qed.

Example parseDishName_markers : AIService.parseDishName (js "***") = js "Unknown Dish".
Proof. vm_compute. reflexivity. Qed.

(* ------------------------------------------------------------------ *)
(** * A response without text *)

(** C4. When the response text is missing or empty the client works on
    ["I couldn't identify the dish."]: that sentence is the raw text of
    the result and, being its only line, the dish name; the description is
    the generic one; the grounding chunks are those of the response, and
    none when the response brought none. *)
Theorem missing_text_result (response : AIService.GenerateContentResponse) :
  textMissing response = true ->
  let result := AIService.analyze response in
  AIService.identifyDishAndFindPlaces (Resolved response) = Resolved result
  /\ Types.rawText result = js "I couldn't identify the dish."
  /\ Types.dishName result = js "I couldn't identify the dish."
  /\ Types.description result = js "Delicious culinary creation identified."
  /\ Types.groundingChunks result
     = map (AIService.enrichChunk (js "I couldn't identify the dish."))
           (AIService.rawChunks response)
  /\ (AIService.rawChunks response = [] -> Types.groundingChunks result = []).
Proof.
  intros Hmiss result.
  assert (AIService.responseText response = AIService.fallbackText) as Htext.
  { unfold textMissing in Hmiss. unfold AIService.responseText.
    destruct (AIService.text response) as [t|]; [|reflexivity].
    unfold JS.orElse. apply negb_true_iff in Hmiss. now rewrite Hmiss. }
  assert (result
          = {| Types.dishName := AIService.fallbackText;
               Types.description := AIService.genericDescription;
               Types.groundingChunks :=
                 map (AIService.enrichChunk AIService.fallbackText)
                     (AIService.rawChunks response);
               Types.rawText := AIService.fallbackText |}) as Hres.
  { subst result. unfold AIService.analyze. rewrite Htext. reflexivity. }
  split; [reflexivity|]. rewrite Hres.
  split; [reflexivity|]. split; [reflexivity|]. split; [reflexivity|].
  split; [reflexivity|]. simpl. intros Hnone. now rewrite Hnone.
Qed.

Lemma missing_text_result_witness :
  let result := AIService.analyze (Scenario.responseOf (Some []) []) in
  AIService.identifyDishAndFindPlaces (Resolved (Scenario.responseOf (Some []) []))
  = Resolved result
  /\ Types.rawText result = js "I couldn't identify the dish."
  /\ Types.dishName result = js "I couldn't identify the dish."
  /\ Types.description result = js "Delicious culinary creation identified."
  /\ Types.groundingChunks result
     = map (AIService.enrichChunk (js "I couldn't identify the dish."))
           (AIService.rawChunks (Scenario.responseOf (Some []) []))
  /\ (AIService.rawChunks (Scenario.responseOf (Some []) []) = [] ->
      Types.groundingChunks result = []).
Proof.
  apply (missing_text_result (Scenario.responseOf (Some []) [])). reflexivity.
Defined.

(** Scenario B, evaluated. *)
Example analyze_empty :
  AIService.analyze (Scenario.responseOf None [])
  = {| Types.dishName := js "I couldn't identify the dish.";
       Types.description := js "Delicious culinary creation identified.";
       Types.groundingChunks := [];
       Types.rawText := js "I couldn't identify the dish." |}.
Proof. vm_compute. reflexivity. Qed.

(* ------------------------------------------------------------------ *)
(** * The state machine *)

Section StateMachine.
Import Types App.
Local Open Scope handler_scope.

Lemma isState_eq (a b : AppState) : isState a b = true -> a = b.
Proof. destruct a, b; simpl; congruence. Qed.

Lemma pipelineCount_removeNth (n : nat) (l : list Task) (t : Task) :
  nth_error l n = Some t ->
  pipelineCount l = (pipelineCount (removeNth n l) + (if isPipeline t then 1 else 0))%nat.
Proof.
  unfold pipelineCount.
  revert n; induction l as [|x l IH]; intros [|n]; simpl; try discriminate.
  - intros [= ->]. destruct (isPipeline t); simpl; lia.
  - intros H. specialize (IH n H). destruct (isPipeline x); simpl; lia.
Qed.

Lemma pipelineCount_app (a b : list Task) :
  pipelineCount (a ++ b) = (pipelineCount a + pipelineCount b)%nat.
Proof. unfold pipelineCount. now rewrite filter_app, length_app. Qed.

Lemma guarded_Some (b : bool) (w w' : World) (h : Handler) (fx : list Effect) :
  guarded b w h = Some (w', fx) ->
  b = true /\ w' = fst (commit w (pending w) h) /\ fx = effects (h (ui w)).
Proof.
  unfold guarded. destruct b; [|discriminate].
  intros H. injection H as H1 H2. subst. auto.
Qed.

Lemma consistent_commit (w : World) (keep : list Task) (h : Handler)
      (st : AppState) (res : option DishAnalysisResult) (err : option JS.str) (k : nat) :
  summary (h (ui w)) = (st, res, err, k) ->
  sound st res err (pipelineCount keep + k) ->
  consistent (fst (commit w keep h)).
Proof.
  unfold summary, consistent, commit. simpl. intros [= <- <- <- <-].
  now rewrite pipelineCount_app.
Qed.

Lemma consistent_bystander (w : World) (keep : list Task) (h : Handler) :
  bystander h -> pipelineCount keep = pipelineCount (pending w) ->
  consistent w -> consistent (fst (commit w keep h)).
Proof.
  intros Hb Hk Hc. apply (consistent_commit w keep h _ _ _ _ (Hb (ui w))).
  now rewrite Nat.add_0_r, Hk.
Qed.

Lemma bystander_whatsApp (phone title : option JS.str) :
  bystander (handleWhatsAppClick phone title).
Proof.
  intros s. unfold handleWhatsAppClick.
  destruct phone as [p|]; [destruct (JS.truthy p)|]; reflexivity.
Qed.

Lemma bystander_delivery (u : option User) (now provider : JS.str) :
  bystander (handleDeliverySelection u now provider).
Proof.
  intros s. unfold handleDeliverySelection.
  destruct (pendingOrder s) as [po|]; [|reflexivity].
  destruct (URI.encodeURIComponent _); reflexivity.
Qed.

Lemma bystander_close : bystander closeDeliveryModal.
Proof. intros s. reflexivity. Qed.

Lemma bystander_page (page : JS.str) : bystander (modify (setCurrentPage page)).
Proof. intros s. reflexivity. Qed.

Lemma bystander_upload (r : Settled JS.str) : bystander (upload_settled r).
Proof. intros s. destruct r; reflexivity. Qed.

Lemma bystander_no_file : bystander (handleFileChange None).
Proof. intros s. reflexivity. Qed.

Lemma summary_capture (u : option User) (b : bool) (s : State) :
  summary (handleCapture u b s) = (appState s, analysisResult s, None, 0%nat).
Proof. destruct u; [destruct b|]; reflexivity. Qed.

Lemma summary_file (f : File) (s : State) :
  summary (handleFileChange (Some f) s) = (ANALYZING, analysisResult s, errorMsg s, 1%nat).
Proof. reflexivity. Qed.

Lemma summary_reset (b : bool) (s : State) :
  summary (resetApp b s) = (IDLE, None, None, 0%nat).
Proof. destruct b; reflexivity. Qed.

Lemma summary_converted_ok (b : JS.str) (s : State) :
  summary (handleFileChange_converted (Resolved b) s)
  = (appState s, analysisResult s, errorMsg s, 1%nat).
Proof. reflexivity. Qed.

Lemma summary_converted_failed (e : JsError) (s : State) :
  summary (handleFileChange_converted (Rejected e) s)
  = (ERROR, analysisResult s, Some (js "Unable to process image."), 0%nat).
Proof. reflexivity. Qed.

Lemma summary_located (b : JS.str) (r : Settled LocationData) (s : State) :
  summary (processImage_located b r s) = (appState s, analysisResult s, errorMsg s, 1%nat).
Proof. destruct r; reflexivity. Qed.

Lemma summary_identified_ok (result : DishAnalysisResult) (s : State) :
  summary (processImage_identified (Resolved result) s)
  = (RESULTS, Some result, errorMsg s, 0%nat).
Proof. reflexivity. Qed.

Lemma summary_identified_failed (err : JsError) (s : State) :
  summary (processImage_identified (Rejected err) s)
  = (ERROR, analysisResult s,
     Some (JS.orElse (message err) (js "Something went wrong.")), 0%nat).
Proof. reflexivity. Qed.

Lemma rendered_reset (s : State) :
  rendered s ScanAnotherButton || rendered s TryAgainButton = true ->
  (appState s = RESULTS \/ appState s = ERROR)
  /\ mainView s = true /\ leaving s = false.
Proof.
  unfold rendered. rewrite orb_true_iff, !andb_true_iff, !negb_true_iff.
  intros [[[[Hm H] _] Hl] | [[Hm H] Hl]]; apply isState_eq in H; auto.
Qed.

(** The line written to the console changes neither the state nor what
    is left waiting. *)
Lemma summary_logged (l : list Effect) (h : Handler) (s : State) :
  summary ((emitAll l ;; h) s) = summary (h s).
Proof. reflexivity. Qed.

(** While a pipeline continuation waits, the machine is analyzing and no
    other one waits. *)
Lemma consistent_pipeline (w : World) (n : nat) (t : Task) :
  consistent w -> nth_error (pending w) n = Some t -> isPipeline t = true ->
  appState (ui w) = ANALYZING /\ analysisResult (ui w) = None
  /\ errorMsg (ui w) = None /\ pipelineCount (removeNth n (pending w)) = 0%nat.
Proof.
  intros Hc Hn Hp. pose proof (pipelineCount_removeNth n (pending w) t Hn) as Hcount.
  rewrite Hp in Hcount. unfold consistent, sound in Hc.
  destruct (appState (ui w)); try (exfalso; lia || tauto).
  destruct Hc as (? & ? & ?). repeat split; try assumption. lia.
Qed.

Lemma rendered_reset_offered (s : State) :
  mainView s = true -> leaving s = false ->
  (appState s = RESULTS /\ analysisResult s <> None) \/ appState s = ERROR ->
  rendered s ScanAnotherButton || rendered s TryAgainButton = true.
Proof.
  intros Hm Hl H. unfold rendered. rewrite Hm, Hl.
  destruct H as [[-> Hres] | ->]; simpl; [|reflexivity].
  destruct (analysisResult s); [reflexivity | now elim Hres].
Qed.

(** A step keeps the invariant as long as it is not a use of the idle
    view outside [IDLE]. *)
Lemma step_consistent (w w' : World) (e : Event) (fx : list Effect) :
  (usesIdleView e = true -> appState (ui w) = IDLE) ->
  consistent w -> step w e = Some (w', fx) -> consistent w'.
Proof.
  intros Hcalm Hc Hstep. destruct e; unfold step in Hstep.
  - (* the capture button *)
    apply guarded_Some in Hstep as (_ & -> & _). pose proof (Hcalm eq_refl) as G.
    unfold consistent in Hc. rewrite G in Hc. destruct Hc as (Hres & Herr & Hpipe).
    apply (consistent_commit _ _ _ _ _ _ _ (summary_capture _ _ _)).
    rewrite G, Hres, Hpipe. simpl. auto.
  - (* a file is chosen *)
    apply guarded_Some in Hstep as (_ & -> & _). pose proof (Hcalm eq_refl) as G.
    destruct f as [f|].
    + unfold consistent in Hc. rewrite G in Hc. destruct Hc as (Hres & Herr & Hpipe).
      apply (consistent_commit _ _ _ _ _ _ _ (summary_file _ _)).
      rewrite Hres, Herr, Hpipe. simpl. auto.
    + apply consistent_bystander; [apply bystander_no_file | reflexivity | exact Hc].
  - (* an order link *)
    destruct (chunkAt (ui w) idx) as [c|]; [|discriminate].
    apply guarded_Some in Hstep as (_ & -> & _).
    apply consistent_bystander; [apply bystander_whatsApp | reflexivity | exact Hc].
  - (* a reset button *)
    apply guarded_Some in Hstep as (G & -> & _). apply rendered_reset in G as (G & _).
    apply (consistent_commit _ _ _ _ _ _ _ (summary_reset _ _)).
    unfold consistent in Hc. destruct G as [G | G]; rewrite G in Hc;
      destruct Hc as (_ & _ & ->); simpl; auto.
  - (* a delivery provider is chosen *)
    apply guarded_Some in Hstep as (_ & -> & _).
    apply consistent_bystander; [apply bystander_delivery | reflexivity | exact Hc].
  - (* the modal is dismissed *)
    apply guarded_Some in Hstep as (_ & -> & _).
    apply consistent_bystander; [apply bystander_close | reflexivity | exact Hc].
  - (* navigation *)
    apply guarded_Some in Hstep as (_ & -> & _).
    apply consistent_bystander; [apply bystander_page | reflexivity | exact Hc].
  - (* signed in *)
    apply guarded_Some in Hstep as (_ & -> & _).
    apply consistent_bystander; [apply bystander_page | reflexivity | exact Hc].
  - (* the user changes *)
    injection Hstep as <- _. exact Hc.
  - (* a promise settles *)
    destruct (nth_error (pending w) n) as [t|] eqn:Hn; [|discriminate].
    destruct (resume t v) as [h|] eqn:Hr; [|discriminate].
    assert (w' = fst (commit w (removeNth n (pending w)) h)) as ->
      by (inversion Hstep; reflexivity).
    clear Hstep.
    destruct t, v; simpl in Hr; try discriminate; injection Hr as <-.
    + (* the image is converted, or not *)
      destruct (consistent_pipeline w n _ Hc Hn eq_refl) as (Hst & Hres & Herr & Hrest).
      destruct r as [b | e].
      * apply (consistent_commit _ _ _ _ _ _ _ (summary_converted_ok _ _)).
        rewrite Hst, Hres, Herr, Hrest. simpl. auto.
      * apply (consistent_commit _ _ _ _ _ _ _ (summary_converted_failed _ _)).
        rewrite Hres, Hrest. simpl. repeat split. discriminate.
    + (* the upload *)
      apply consistent_bystander; [apply bystander_upload | | exact Hc].
      rewrite (pipelineCount_removeNth n (pending w) _ Hn). simpl. lia.
    + (* the location *)
      destruct (consistent_pipeline w n _ Hc Hn eq_refl) as (Hst & Hres & Herr & Hrest).
      apply (consistent_commit _ _ _ _ _ _ _ (summary_located _ _ _)).
      rewrite Hst, Hres, Herr, Hrest. simpl. auto.
    + (* the analysis *)
      destruct (consistent_pipeline w n _ Hc Hn eq_refl) as (Hst & Hres & Herr & Hrest).
      destruct r as [response | e].
      * apply (consistent_commit _ _ _ _ _ _ _
                 (eq_trans (summary_logged _ _ _) (summary_identified_ok _ _))).
        rewrite Herr, Hrest. simpl. repeat split. discriminate.
      * apply (consistent_commit _ _ _ _ _ _ _
                 (eq_trans (summary_logged _ _ _) (summary_identified_failed _ _))).
        rewrite Hres, Hrest. simpl. repeat split. discriminate.
  - (* the idle view has left *)
    destruct (mainView (ui w) && leaving (ui w)); [|discriminate].
    injection Hstep as <- _. exact Hc.
Qed.

Lemma run_consistent (es : list Event) (w w' : World) (fx : list Effect) :
  consistent w -> orderly w es = true -> run w es = Some (w', fx) -> consistent w'.
Proof.
  revert w fx; induction es as [|e es IH]; intros w fx Hc; simpl.
  - now intros _ [= <- _].
  - destruct (step w e) as [[w1 fx1]|] eqn:E; [|discriminate].
    rewrite andb_true_iff, orb_true_iff, negb_true_iff. intros [Hcalm Ho].
    destruct (run w1 es) as [[w2 fx2]|] eqn:R; [|discriminate].
    intros [= <- _]. refine (IH w1 fx2 (step_consistent w w1 e fx1 _ Hc E) Ho R).
    intros Hu. destruct Hcalm as [Hcalm | Hcalm]; [congruence | now apply isState_eq].
Qed.

Lemma initial_consistent (u : option User) : consistent (initialWorld u).
Proof. unfold consistent. simpl. auto. Qed.

(** ** What holds in every run *)

Lemma tidy_commit (w : World) (keep : list Task) (h : Handler)
      (st : AppState) (res : option DishAnalysisResult) (err : option JS.str) (k : nat) :
  summary (h (ui w)) = (st, res, err, k) ->
  (st = RESULTS -> res <> None) -> st <> CAPTURING ->
  tidy (ui (fst (commit w keep h))).
Proof.
  unfold summary, tidy, commit. cbn [fst ui]. intros [= <- <- <- <-] H1 H2.
  split; [exact H1|]. split; [exact H2|].
  change (appState (next (h (ui w))) = IDLE \/ mainView (next (h (ui w))) = false ->
          presence (ui w) (currentUser w) (next (h (ui w))) = None).
  unfold presence. intros [Hi | Hm].
  - rewrite Hi. simpl. now destruct (mainView _).
  - now rewrite Hm.
Qed.

Lemma tidy_bystander (w : World) (keep : list Task) (h : Handler) :
  bystander h -> tidy (ui w) -> tidy (ui (fst (commit w keep h))).
Proof.
  intros Hb (H1 & H2 & _). exact (tidy_commit w keep h _ _ _ _ (Hb (ui w)) H1 H2).
Qed.

Lemma step_tidy (w w' : World) (e : Event) (fx : list Effect) :
  tidy (ui w) -> step w e = Some (w', fx) -> tidy (ui w').
Proof.
  intros Ht Hstep. pose proof Ht as (H1 & H2 & H3).
  destruct e; unfold step in Hstep.
  - apply guarded_Some in Hstep as (_ & -> & _).
    exact (tidy_commit _ _ _ _ _ _ _ (summary_capture _ _ _) H1 H2).
  - apply guarded_Some in Hstep as (_ & -> & _). destruct f as [f|].
    + apply (tidy_commit _ _ _ _ _ _ _ (summary_file _ _)); discriminate.
    + now apply tidy_bystander; [apply bystander_no_file|].
  - destruct (chunkAt (ui w) idx) as [c|]; [|discriminate].
    apply guarded_Some in Hstep as (_ & -> & _).
    now apply tidy_bystander; [apply bystander_whatsApp|].
  - apply guarded_Some in Hstep as (_ & -> & _).
    apply (tidy_commit _ _ _ _ _ _ _ (summary_reset _ _)); discriminate.
  - apply guarded_Some in Hstep as (_ & -> & _).
    now apply tidy_bystander; [apply bystander_delivery|].
  - apply guarded_Some in Hstep as (_ & -> & _).
    now apply tidy_bystander; [apply bystander_close|].
  - apply guarded_Some in Hstep as (_ & -> & _).
    now apply tidy_bystander; [apply bystander_page|].
  - apply guarded_Some in Hstep as (_ & -> & _).
    now apply tidy_bystander; [apply bystander_page|].
  - injection Hstep as <- _. exact Ht.
  - destruct (nth_error (pending w) n) as [t|] eqn:Hn; [|discriminate].
    destruct (resume t v) as [h|] eqn:Hr; [|discriminate].
    assert (w' = fst (commit w (removeNth n (pending w)) h)) as ->
      by (inversion Hstep; reflexivity).
    clear Hstep.
    destruct t, v; simpl in Hr; try discriminate; injection Hr as <-.
    + destruct r as [b | e].
      * exact (tidy_commit _ _ _ _ _ _ _ (summary_converted_ok _ _) H1 H2).
      * apply (tidy_commit _ _ _ _ _ _ _ (summary_converted_failed _ _)); discriminate.
    + now apply tidy_bystander; [apply bystander_upload|].
    + exact (tidy_commit _ _ _ _ _ _ _ (summary_located _ _ _) H1 H2).
    + destruct r as [response | e].
      * apply (tidy_commit _ _ _ _ _ _ _
                 (eq_trans (summary_logged _ _ _) (summary_identified_ok _ _)));
          discriminate.
      * apply (tidy_commit _ _ _ _ _ _ _
                 (eq_trans (summary_logged _ _ _) (summary_identified_failed _ _)));
          discriminate.
  - destruct (mainView (ui w) && leaving (ui w)); [|discriminate].
    injection Hstep as <- _. repeat split; auto.
Qed.

Lemma run_tidy (es : list Event) (w w' : World) (fx : list Effect) :
  tidy (ui w) -> run w es = Some (w', fx) -> tidy (ui w').
Proof.
  revert w fx; induction es as [|e es IH]; intros w fx Ht; simpl.
  - now intros [= <- _].
  - destruct (step w e) as [[w1 fx1]|] eqn:E; [|discriminate].
    destruct (run w1 es) as [[w2 fx2]|] eqn:R; [|discriminate].
    intros [= <- _]. exact (IH w1 fx2 (step_tidy w w1 e fx1 Ht E) R).
Qed.

Lemma initial_tidy (u : option User) : tidy (ui (initialWorld u)).
Proof. repeat split; auto; discriminate. Qed.

End StateMachine.

(** C5. The component does not keep the invariant that [analysisResult]
    is set exactly in [RESULTS] and [errorMsg] exactly in [ERROR].  The
    idle view stays mounted while it plays its exit animation, and its
    handlers do not look at [appState].  A second file chosen during that
    time starts a second scan: when the first scan succeeds and the
    second fails, the state is [ERROR] and the result of the first is
    still stored.  And a click on the capture button after a failed
    conversion clears [errorMsg] in [ERROR]. *)
Theorem state_invariant_broken :
  (exists w fx,
     App.run (App.initialWorld (Some Scenario.diner))
       [ App.ChooseFile (Some Scenario.photo);
         App.ChooseFile (Some Scenario.menu);
         App.Settle 0 (App.ConvertSettled (Resolved Scenario.dataUrl));
         App.Settle 2 (App.LocationSettled (Rejected Scenario.denied));
         App.Settle 2 (App.GenerateSettled (Resolved Scenario.ramenResponse));
         App.Settle 0 (App.ConvertSettled (Rejected Scenario.unreadable)) ]
     = Some (w, fx)
     /\ App.appState (App.ui w) = Types.ERROR
     /\ App.analysisResult (App.ui w) = Some (AIService.analyze Scenario.ramenResponse)
     /\ App.errorMsg (App.ui w) = Some (js "Unable to process image."))
  /\ (exists w fx,
        App.run (App.initialWorld (Some Scenario.diner))
          [ App.ChooseFile (Some Scenario.menu);
            App.Settle 0 (App.ConvertSettled (Rejected Scenario.unreadable));
            App.ClickCapture ]
        = Some (w, fx)
        /\ App.appState (App.ui w) = Types.ERROR
        /\ App.errorMsg (App.ui w) = None
        /\ App.analysisResult (App.ui w) = None).
Proof.
  split; eexists; eexists; (split; [vm_compute; reflexivity|]);
    repeat split; vm_compute; reflexivity.
Qed.

Example scan_reaches_results :
  App.appState (App.ui (fst (Scenario.after Scenario.scan))) = Types.RESULTS
  /\ App.pending (fst (Scenario.after Scenario.scan)) = [App.AwaitUpload].
Proof. vm_compute. split; reflexivity. Qed.

(** The handler of the file input itself keeps a result that is there;
    only [resetApp] clears it. *)
Remark handleFileChange_keeps_result (s : App.State) (f : App.File) :
  let s' := App.next (App.handleFileChange (Some f) s) in
  App.appState s' = Types.ANALYZING /\ App.analysisResult s' = App.analysisResult s.
Proof. split; reflexivity. Qed.

(* ------------------------------------------------------------------ *)
(** * Failure of the analysis call *)

(** C6. In any world in which the analysis call is awaited, the step is
    taken however the call to the service settles.  If the call failed,
    [identifyDishAndFindPlaces] logs the error and rejects with one error
    whose message points at the API key; the state becomes [ERROR] with
    that message, and the call stores no result: [analysisResult] is what
    it was.  If the call succeeded, the result has all four fields, each
    computed from this response, it is stored, the state becomes
    [RESULTS], and [errorMsg] is what it was.  Either way the continuation
    is gone and nothing new waits. *)
Theorem analysis_all_or_nothing (w : App.World) (n : nat)
    (call : Settled AIService.GenerateContentResponse) :
  nth_error (App.pending w) n = Some App.AwaitIdentify ->
  exists w' fx,
    App.step w (App.Settle n (App.GenerateSettled call)) = Some (w', fx)
    /\ App.pending w' = App.removeNth n (App.pending w)
    /\ match call with
       | Rejected _ =>
           AIService.identifyDishAndFindPlaces call
           = Rejected {| message := js "Failed to analyze dish. Please ensure your API_KEY is a valid Google Gemini key." |}
           /\ fx = [ App.Console (js "Gemini API Error:");
                     App.Console (js "Failed to analyze dish. Please ensure your API_KEY is a valid Google Gemini key.") ]
           /\ App.appState (App.ui w') = Types.ERROR
           /\ App.errorMsg (App.ui w')
              = Some (js "Failed to analyze dish. Please ensure your API_KEY is a valid Google Gemini key.")
           /\ App.analysisResult (App.ui w') = App.analysisResult (App.ui w)
       | Resolved response =>
           let text := AIService.responseText response in
           let result :=
             {| Types.dishName := AIService.parseDishName text;
                Types.description := AIService.parseDescription text;
                Types.groundingChunks :=
                  map (AIService.enrichChunk text) (AIService.rawChunks response);
                Types.rawText := text |} in
           AIService.identifyDishAndFindPlaces call = Resolved result
           /\ fx = []
           /\ App.appState (App.ui w') = Types.RESULTS
           /\ App.analysisResult (App.ui w') = Some result
           /\ App.errorMsg (App.ui w') = App.errorMsg (App.ui w)
       end.
Proof.
  intros Hn. unfold App.step. rewrite Hn. simpl App.resume. cbv iota beta.
  eexists. eexists. split; [reflexivity|].
  split; [simpl; destruct call; simpl; now rewrite app_nil_r|].
  destruct call as [response | e]; simpl; auto.
Qed.

Lemma analysis_all_or_nothing_witness :
  let w := fst (Scenario.after Scenario.locate) in
  (exists w' fx,
     App.step w (App.Settle 1 (App.GenerateSettled (Rejected Scenario.unreachable)))
     = Some (w', fx)
     /\ App.pending w' = App.removeNth 1 (App.pending w)
     /\ AIService.identifyDishAndFindPlaces (Rejected Scenario.unreachable)
        = Rejected {| message := js "Failed to analyze dish. Please ensure your API_KEY is a valid Google Gemini key." |}
     /\ fx = [ App.Console (js "Gemini API Error:");
               App.Console (js "Failed to analyze dish. Please ensure your API_KEY is a valid Google Gemini key.") ]
     /\ App.appState (App.ui w') = Types.ERROR
     /\ App.errorMsg (App.ui w')
        = Some (js "Failed to analyze dish. Please ensure your API_KEY is a valid Google Gemini key.")
     /\ App.analysisResult (App.ui w') = App.analysisResult (App.ui w))
  /\ (exists w' fx,
        App.step w (App.Settle 1 (App.GenerateSettled (Resolved Scenario.ramenResponse)))
        = Some (w', fx)
        /\ App.pending w' = App.removeNth 1 (App.pending w)
        /\ let text := AIService.responseText Scenario.ramenResponse in
           let result :=
             {| Types.dishName := AIService.parseDishName text;
                Types.description := AIService.parseDescription text;
                Types.groundingChunks :=
                  map (AIService.enrichChunk text)
                      (AIService.rawChunks Scenario.ramenResponse);
                Types.rawText := text |} in
           AIService.identifyDishAndFindPlaces (Resolved Scenario.ramenResponse)
           = Resolved result
           /\ fx = []
           /\ App.appState (App.ui w') = Types.RESULTS
           /\ App.analysisResult (App.ui w') = Some result
           /\ App.errorMsg (App.ui w') = App.errorMsg (App.ui w)).
Proof.
  intros w. split.
  - apply (analysis_all_or_nothing w 1 (Rejected Scenario.unreachable)).
    vm_compute. reflexivity.
  - apply (analysis_all_or_nothing w 1 (Resolved Scenario.ramenResponse)).
    vm_compute. reflexivity.
Defined.

(** A failing call in a world that holds a result leaves it stored. *)
Example failed_call_keeps_earlier_result :
  option_map
    (fun r => (App.appState (App.ui (fst r)), App.analysisResult (App.ui (fst r))))
    (App.run (App.initialWorld (Some Scenario.diner))
       [ App.ChooseFile (Some Scenario.photo);
         App.ChooseFile (Some Scenario.menu);
         App.Settle 0 (App.ConvertSettled (Resolved Scenario.dataUrl));
         App.Settle 0 (App.ConvertSettled (Resolved Scenario.dataUrl));
         App.Settle 1 (App.LocationSettled (Rejected Scenario.denied));
         App.Settle 2 (App.LocationSettled (Rejected Scenario.denied));
         App.Settle 2 (App.GenerateSettled (Resolved Scenario.ramenResponse));
         App.Settle 2 (App.GenerateSettled (Rejected Scenario.unreachable)) ])
  = Some (Types.ERROR, Some (AIService.analyze Scenario.ramenResponse)).
Proof. vm_compute. reflexivity. Qed.

(** The failure of the image conversion is the other way into [ERROR]. *)
Example conversion_failure :
  option_map (fun r => (App.appState (App.ui (fst r)), App.errorMsg (App.ui (fst r))))
    (App.run Scenario.start
       [ App.ChooseFile (Some Scenario.photo);
         App.Settle 0 (App.ConvertSettled (Rejected Scenario.denied)) ])
  = Some (Types.ERROR, Some (js "Unable to process image.")).
Proof. vm_compute. reflexivity. Qed.

(* ------------------------------------------------------------------ *)
(** * Ordering *)

Section Ordering.
Import Types App.

Lemma world_eta (w : World) : mkWorld (ui w) (currentUser w) (pending w ++ []) = w.
Proof. destruct w. simpl. now rewrite app_nil_r. Qed.

Lemma setIdleLeaving_same (s : State) : setIdleLeaving (idleLeaving s) s = s.
Proof. now destruct s. Qed.

(** Nothing changes for [AnimatePresence] when the state stays outside
    [IDLE] on the main view. *)
Lemma presence_stays (before : State) (u : option User) (s : State) :
  mainView s = true -> isState (appState s) IDLE = false ->
  isState (appState before) IDLE = false ->
  presence before u s = idleLeaving s.
Proof.
  intros Hm Hi Hb. unfold presence. now rewrite Hm, Hi, Hb, andb_false_r.
Qed.

(** Nor when the state is rendered again as it is. *)
Lemma presence_self (s : State) (u : option User) :
  tidy s -> presence s u s = idleLeaving s.
Proof.
  intros (_ & _ & H). unfold presence.
  destruct (mainView s) eqn:Hm; [|symmetry; auto].
  destruct (isState (appState s) IDLE) eqn:Hi; [|reflexivity].
  symmetry. apply H. left. now apply isState_eq.
Qed.

(** Where an order link is on the screen. *)
Lemma rendered_order (s : State) (idx : nat) :
  rendered s (OrderLink idx) = true ->
  mainView s = true /\ appState s = RESULTS /\ leaving s = false.
Proof.
  unfold rendered. rewrite !andb_true_iff, negb_true_iff.
  intros [[[[Hm H] _] _] Hl]. apply isState_eq in H. auto.
Qed.

(** Lines 148-151: without a phone number the handler only warns. *)
Lemma handleWhatsAppClick_refuses (phone title : option JS.str) (s : State) :
  truthyOpt phone = false ->
  handleWhatsAppClick phone title s
  = mkOutcome s [PreventDefault; Alert noContactNotice] [].
Proof.
  unfold handleWhatsAppClick, truthyOpt. destruct phone as [p|].
  - intros ->. reflexivity.
  - reflexivity.
Qed.

End Ordering.

(** C7. Clicking the order link of a chunk that has no phone number (none
    at all, or an empty one) shows the notice and does nothing else: the
    world is unchanged, so no order is pending and the modal stays as it
    was, and the effects are the notice alone, so no window is opened and
    no lead is tracked. *)
Theorem order_refused (w : App.World) (idx : nat) (c : Types.GroundingChunk) :
  App.chunkAt (App.ui w) idx = Some c ->
  App.rendered (App.ui w) (App.OrderLink idx) = true ->
  App.truthyOpt (App.chunkPhone c) = false ->
  App.step w (App.ClickOrder idx)
  = Some (w, [App.PreventDefault;
              App.Alert (js "No official contact number found for this restaurant.")]).
Proof.
  intros Hc Hr Hp. unfold App.step, App.guarded, App.commit. rewrite Hc, Hr.
  rewrite (handleWhatsAppClick_refuses _ _ _ Hp). cbn [App.next App.effects App.spawned].
  destruct (rendered_order _ _ Hr) as (Hm & Hst & _).
  rewrite presence_stays, setIdleLeaving_same, world_eta;
    auto; rewrite Hst; reflexivity.
Qed.

Lemma order_refused_witness :
  App.step (fst (Scenario.after Scenario.scan)) (App.ClickOrder 1)
  = Some (fst (Scenario.after Scenario.scan),
          [App.PreventDefault;
           App.Alert (js "No official contact number found for this restaurant.")]).
Proof.
  apply (order_refused (fst (Scenario.after Scenario.scan)) 1 Scenario.cafeChunk).
  - vm_compute. reflexivity.
  - vm_compute. reflexivity.
  - vm_compute. reflexivity.
Defined.

(* ------------------------------------------------------------------ *)
(** * [encodeURIComponent] yields URI characters *)

Section Encoding.
Import URI.

Lemma hexDigit_hex (n : Z) : 0 <= n < 16 -> isHexDigit (hexDigit n) = true.
Proof.
  intros Hn. unfold isHexDigit, hexDigit.
  destruct (n <? 10) eqn:E; [apply Z.ltb_lt in E | apply Z.ltb_ge in E].
  - apply orb_true_iff. left. apply andb_true_iff. split; apply Z.leb_le; lia.
  - apply orb_true_iff. right. apply andb_true_iff. split; apply Z.leb_le; lia.
Qed.

Lemma isHexDigit_uriChar (c : Z) : isHexDigit c = true -> uriChar c = true.
Proof. unfold uriChar. intros ->. apply orb_true_r. Qed.

Lemma percent_uriChar (octet : Z) :
  0 <= octet < 256 -> forallb uriChar (percent octet) = true.
Proof.
  intros Ho. unfold percent. simpl. rewrite andb_true_r.
  rewrite !isHexDigit_uriChar; [reflexivity | |].
  - apply hexDigit_hex. change 15 with (Z.ones 4). rewrite Z.land_ones by lia.
    change (2 ^ 4) with 16. apply Z.mod_pos_bound. lia.
  - apply hexDigit_hex. rewrite Z.shiftr_div_pow2 by lia. change (2 ^ 4) with 16.
    split; [apply Z.div_pos; lia | apply Z.div_lt_upper_bound; lia].
Qed.

Lemma lor_bound (a b : Z) : 0 <= a -> 0 <= b -> 0 <= Z.lor a b <= a + b.
Proof.
  intros Ha Hb. split; [now apply Z.lor_nonneg|].
  pose proof (Z.add_lor_land a b) as H.
  assert (0 <= Z.land a b) by (apply Z.land_nonneg; now left). lia.
Qed.

Lemma low6_bound (x : Z) : 0 <= Z.land x 63 < 64.
Proof.
  change 63 with (Z.ones 6). rewrite Z.land_ones by lia.
  change (2 ^ 6) with 64. apply Z.mod_pos_bound. lia.
Qed.

Lemma shiftr_bound (cp k top : Z) :
  0 <= k -> 0 <= cp < top * 2 ^ k -> 0 <= Z.shiftr cp k < top.
Proof.
  intros Hk Hcp. rewrite Z.shiftr_div_pow2 by exact Hk.
  assert (0 < 2 ^ k) by (apply Z.pow_pos_nonneg; lia).
  split; [apply Z.div_pos; lia | apply Z.div_lt_upper_bound; lia].
Qed.

Lemma utf8_octets (cp : Z) :
  0 <= cp < 1114112 -> Forall (fun o => 0 <= o < 256) (utf8 cp).
Proof.
  intros Hcp. unfold utf8.
  destruct (cp <? 128) eqn:E1; [apply Z.ltb_lt in E1; repeat constructor; lia|].
  apply Z.ltb_ge in E1.
  destruct (cp <? 2048) eqn:E2; [apply Z.ltb_lt in E2 | apply Z.ltb_ge in E2].
  { pose proof (shiftr_bound cp 6 32 ltac:(lia) ltac:(simpl; lia)).
    pose proof (low6_bound cp).
    pose proof (lor_bound 192 (Z.shiftr cp 6)). pose proof (lor_bound 128 (Z.land cp 63)).
    repeat constructor; lia. }
  destruct (cp <? 65536) eqn:E3; [apply Z.ltb_lt in E3 | apply Z.ltb_ge in E3].
  { pose proof (shiftr_bound cp 12 16 ltac:(lia) ltac:(simpl; lia)).
    pose proof (low6_bound cp). pose proof (low6_bound (Z.shiftr cp 6)).
    pose proof (lor_bound 224 (Z.shiftr cp 12)).
    pose proof (lor_bound 128 (Z.land (Z.shiftr cp 6) 63)).
    pose proof (lor_bound 128 (Z.land cp 63)).
    repeat constructor; lia. }
  pose proof (shiftr_bound cp 18 8 ltac:(lia) ltac:(simpl; lia)).
  pose proof (low6_bound cp). pose proof (low6_bound (Z.shiftr cp 6)).
  pose proof (low6_bound (Z.shiftr cp 12)).
  pose proof (lor_bound 240 (Z.shiftr cp 18)).
  pose proof (lor_bound 128 (Z.land (Z.shiftr cp 12) 63)).
  pose proof (lor_bound 128 (Z.land (Z.shiftr cp 6) 63)).
  pose proof (lor_bound 128 (Z.land cp 63)).
  repeat constructor; lia.
Qed.

Lemma escape_uriChar (cp : Z) :
  0 <= cp < 1114112 -> forallb uriChar (escape cp) = true.
Proof.
  intros Hcp. unfold escape. pose proof (utf8_octets cp Hcp) as Hoct.
  induction Hoct as [|o os Ho Hos IH]; cbn [map concat]; [reflexivity|].
  rewrite forallb_app, IH, andb_true_r. now apply percent_uriChar.
Qed.

Lemma codePoint_range (hi lo : Z) :
  isHighSurrogate hi = true -> isLowSurrogate lo = true ->
  0 <= codePoint hi lo < 1114112.
Proof.
  unfold isHighSurrogate, isLowSurrogate, codePoint.
  rewrite !andb_true_iff, !Z.leb_le. lia.
Qed.

(** The encoding of a string of code units consists of unreserved
    characters and of escapes. *)
Lemma encodeURIComponent_uriChars (s enc : JS.str) :
  JS.wellFormed s = true ->
  encodeURIComponent s = Some enc -> forallb uriChar enc = true.
Proof.
  remember (length s) as n eqn:Hn. revert s enc Hn.
  induction n as [n IH] using lt_wf_ind. intros s enc Hn Hwf.
  destruct s as [|c s]; simpl.
  - now intros [= <-].
  - simpl in Hwf. apply andb_true_iff in Hwf as [Hc Hwf]. simpl in Hn.
    destruct (unreserved c) eqn:Hu.
    + destruct (encodeURIComponent s) as [e|] eqn:E; [|discriminate].
      intros [= <-]. simpl. unfold uriChar at 1. rewrite Hu. simpl.
      apply (IH (length s)) with (s := s); auto; lia.
    + destruct (isLowSurrogate c) eqn:Hl; [discriminate|].
      destruct (isHighSurrogate c) eqn:Hh.
      * destruct s as [|d s]; [discriminate|].
        destruct (isLowSurrogate d) eqn:Hd; [|discriminate].
        destruct (encodeURIComponent s) as [e|] eqn:E; [|discriminate].
        intros [= <-]. rewrite forallb_app.
        rewrite (escape_uriChar _ (codePoint_range c d Hh Hd)). simpl.
        simpl in Hwf. apply andb_true_iff in Hwf as [_ Hwf]. simpl in Hn.
        apply (IH (length s)) with (s := s); auto; lia.
      * destruct (encodeURIComponent s) as [e|] eqn:E; [|discriminate].
        intros [= <-]. rewrite forallb_app.
        rewrite escape_uriChar.
        -- simpl. apply (IH (length s)) with (s := s); auto; lia.
        -- unfold JS.isCodeUnit in Hc. apply andb_true_iff in Hc as [H0 H1].
           apply Z.leb_le in H0. apply Z.ltb_lt in H1. lia.
Qed.

End Encoding.

(* ------------------------------------------------------------------ *)
(** * The deep link *)

Section DeepLink.
Import Types App.

Lemma cleanPhone_digits (p : JS.str) : cleanPhone p = filter JS.isDigit p.
Proof.
  unfold cleanPhone, JS.removeAll. apply filter_ext. intros c. apply negb_involutive.
Qed.

Lemma cleanPhone_only_digits (p : JS.str) : forallb JS.isDigit (cleanPhone p) = true.
Proof.
  rewrite cleanPhone_digits. apply forallb_forall. intros c Hc.
  now apply filter_In in Hc.
Qed.

End DeepLink.

(** C8. While the delivery modal is open with an order pending, choosing a
    provider whose message can be encoded tracks the lead and then opens,
    in a new browsing context, [https://wa.me/] followed by the digits of
    the pending phone number, in their order and nothing else, then
    [?text=], then the [encodeURIComponent] of the composed message, which
    for a message of code units is made of unreserved characters and
    percent escapes only.  The pending order is cleared and the modal
    closed. *)
Theorem deep_link_form (w : App.World) (po : App.PendingOrder)
    (provider now encoded : JS.str) :
  App.deliveryModalOpen (App.ui w) = true ->
  App.pendingOrder (App.ui w) = Some po ->
  URI.encodeURIComponent (App.orderMessage (App.ui w) po provider) = Some encoded ->
  exists w' lead,
    App.step w (App.SelectProvider provider now)
    = Some (w', [ App.TrackLead lead;
                  App.WindowOpen
                    (js "https://wa.me/" ++ App.cleanPhone (App.phone po)
                     ++ js "?text=" ++ encoded)
                    (js "_blank") ])
    /\ App.cleanPhone (App.phone po) = filter JS.isDigit (App.phone po)
    /\ forallb JS.isDigit (App.cleanPhone (App.phone po)) = true
    /\ (JS.wellFormed (App.orderMessage (App.ui w) po provider) = true ->
        forallb URI.uriChar encoded = true)
    /\ App.restaurantPhone lead = App.cleanPhone (App.phone po)
    /\ App.pendingOrder (App.ui w') = None
    /\ App.showDeliveryModal (App.ui w') = false.
Proof.
  intros Hopen Hpo Henc.
  unfold App.step, App.guarded, App.commit. rewrite Hopen.
  unfold App.handleDeliverySelection. rewrite Hpo, Henc.
  eexists. eexists. split; [reflexivity|].
  split; [apply cleanPhone_digits|].
  split; [apply cleanPhone_only_digits|].
  split; [intros Hwf; exact (encodeURIComponent_uriChars _ _ Hwf Henc)|].
  repeat split.
Qed.

Lemma deep_link_form_witness :
  let w := fst (Scenario.after (Scenario.scan ++ [App.ClickOrder 0])) in
  exists w' lead,
    App.step w (App.SelectProvider (js "Talabat") (js "2026-01-01T12:00:00.000Z"))
    = Some (w', [ App.TrackLead lead;
                  App.WindowOpen
                    (js "https://wa.me/" ++ App.cleanPhone (js "+971501234567")
                     ++ js "?text="
                     ++ js "Hello%2C%20I%20found%20Noodle%20House%20on%20DishOut.%20I'd%20like%20to%20order%20Spicy%20Tonkotsu%20Ramen%20via%20Talabat.")
                    (js "_blank") ])
    /\ App.cleanPhone (js "+971501234567") = filter JS.isDigit (js "+971501234567")
    /\ forallb JS.isDigit (App.cleanPhone (js "+971501234567")) = true
    /\ (JS.wellFormed
          (App.orderMessage (App.ui w)
             {| App.phone := js "+971501234567"; App.title := js "Noodle House" |}
             (js "Talabat")) = true ->
        forallb URI.uriChar
          (js "Hello%2C%20I%20found%20Noodle%20House%20on%20DishOut.%20I'd%20like%20to%20order%20Spicy%20Tonkotsu%20Ramen%20via%20Talabat.")
        = true)
    /\ App.restaurantPhone lead = App.cleanPhone (js "+971501234567")
    /\ App.pendingOrder (App.ui w') = None
    /\ App.showDeliveryModal (App.ui w') = false.
Proof.
  intros w.
  apply (deep_link_form w
           {| App.phone := js "+971501234567"; App.title := js "Noodle House" |}
           (js "Talabat") (js "2026-01-01T12:00:00.000Z")).
  - vm_compute. reflexivity.
  - vm_compute. reflexivity.
  - vm_compute. reflexivity.
Defined.

(** The link of the scenario, evaluated. *)
Example deep_link_ramen :
  snd (Scenario.after
         (Scenario.scan
          ++ [ App.ClickOrder 0;
               App.SelectProvider (js "Talabat") (js "2026-01-01T12:00:00.000Z") ]))
  = snd (Scenario.after (Scenario.scan ++ [App.ClickOrder 0]))
    ++ [ App.TrackLead
           {| App.leadDishName := js "Spicy Tonkotsu Ramen";
              App.restaurantName := js "Noodle House";
              App.restaurantPhone := js "971501234567";
              App.userEmail := Some (js "diner@example.com");
              App.timestamp := js "2026-01-01T12:00:00.000Z";
              App.dishImageUrl := None |};
         App.WindowOpen
           (js "https://wa.me/971501234567?text=Hello%2C%20I%20found%20Noodle%20House%20on%20DishOut.%20I'd%20like%20to%20order%20Spicy%20Tonkotsu%20Ramen%20via%20Talabat.")
           (js "_blank") ].
Proof. vm_compute. reflexivity. Qed.

(** A message with an unpaired surrogate cannot be encoded: the handler
    throws before it opens anything. *)
Example deep_link_unencodable :
  let order := {| App.phone := js "+971501234567"; App.title := [55357] |} in
  App.effects
    (App.handleDeliverySelection None (js "2026-01-01T12:00:00.000Z") (js "Talabat")
       (App.setPendingOrder (Some order) App.initialState))
  = [App.Uncaught (js "URIError")].
Proof. vm_compute. reflexivity. Qed.

(* ------------------------------------------------------------------ *)
(** * The pending order *)

Section Pending.
Import Types App.

(** Lines 152-153: an order is pending once a place with a phone number
    is chosen. *)
Lemma handleWhatsAppClick_creates (p : JS.str) (title : option JS.str) (s : State) :
  JS.truthy p = true ->
  let s' := next (handleWhatsAppClick (Some p) title s) in
  showDeliveryModal s' = true
  /\ exists t, pendingOrder s' = Some {| phone := p; App.title := t |}.
Proof.
  intros Hp. unfold handleWhatsAppClick. rewrite Hp. simpl.
  split; [reflexivity|]. eexists. reflexivity.
Qed.

(** Line 303: dismissing the modal hides it and leaves the order where it
    is. *)
Lemma closeDeliveryModal_keeps_order (s : State) :
  let s' := next (closeDeliveryModal s) in
  showDeliveryModal s' = false /\ pendingOrder s' = pendingOrder s.
Proof. split; reflexivity. Qed.

End Pending.

(** C9, on the code: after an order is requested from the first result and
    the modal is dismissed, the modal is closed but the order is still
    pending. *)
Theorem dismiss_keeps_pending_order :
  option_map
    (fun r => (App.showDeliveryModal (App.ui (fst r)), App.pendingOrder (App.ui (fst r))))
    (App.run (fst (Scenario.after Scenario.scan)) [App.ClickOrder 0; App.CloseModal])
  = Some (false,
          Some {| App.phone := js "+971501234567"; App.title := js "Noodle House" |}).
Proof. vm_compute. reflexivity. Qed.

(** Choosing a provider, the other way out of the modal, clears it. *)
Example provider_clears_pending_order :
  option_map
    (fun r => (App.showDeliveryModal (App.ui (fst r)), App.pendingOrder (App.ui (fst r))))
    (App.run (fst (Scenario.after Scenario.scan))
       [ App.ClickOrder 0;
         App.SelectProvider (js "Talabat") (js "2026-01-01T12:00:00.000Z") ])
  = Some (false, None).
Proof. vm_compute. reflexivity. Qed.

(* ------------------------------------------------------------------ *)
(** * The background upload *)

Section Upload.
Import Types App.

Lemma nth_error_snoc2 {A} (l : list A) (x y : A) :
  nth_error (l ++ [x; y]) (S (length l)) = Some y.
Proof. induction l as [|a l IH]; simpl; [reflexivity | exact IH]. Qed.

Lemma removeNth_snoc2 {A} (l : list A) (x y : A) :
  removeNth (S (length l)) (l ++ [x; y]) = l ++ [x].
Proof.
  induction l as [|a l IH]; [reflexivity|].
  change (a :: removeNth (S (length l)) (l ++ [x; y]) = a :: l ++ [x]).
  now rewrite IH.
Qed.

Lemma length_removeNth {A} (n : nat) (l : list A) (t : A) :
  nth_error l n = Some t -> length l = S (length (removeNth n l)).
Proof.
  revert n; induction l as [|a l IH]; intros [|n]; simpl; try discriminate.
  - reflexivity.
  - intros H. now rewrite <- (IH n H).
Qed.

Lemma step_settle (w : World) (n : nat) (t : Task) (v : Settlement) (h : Handler) :
  nth_error (pending w) n = Some t -> resume t v = Some h ->
  step w (Settle n v) = Some (commit w (removeNth n (pending w)) h).
Proof. intros Hn Hr. unfold step. now rewrite Hn, Hr. Qed.

Lemma run_cons (w w1 w2 : World) (e : Event) (es : list Event) (fx1 fx2 : list Effect) :
  step w e = Some (w1, fx1) -> run w1 es = Some (w2, fx2) ->
  run w (e :: es) = Some (w2, fx1 ++ fx2).
Proof. intros H1 H2. simpl. now rewrite H1, H2. Qed.

(** From the converted image to [RESULTS], the upload never settling. *)
Lemma pipeline_without_upload (w : World) (n : nat) (image : JS.str)
      (loc : Settled LocationData) (response : AIService.GenerateContentResponse) :
  nth_error (pending w) n = Some AwaitConvert ->
  exists s' fx,
    run w [ Settle n (ConvertSettled (Resolved image));
            Settle (length (pending w)) (LocationSettled loc);
            Settle (length (pending w)) (GenerateSettled (Resolved response)) ]
    = Some (mkWorld s' (currentUser w) (removeNth n (pending w) ++ [AwaitUpload]),
            UploadDishImage image :: fx)
    /\ appState s' = RESULTS.
Proof.
  intros Hn. pose proof (length_removeNth n (pending w) _ Hn) as Hlen.
  set (P := removeNth n (pending w)) in *.
  set (c1 := commit w P (handleFileChange_converted (Resolved image))).
  assert (step w (Settle n (ConvertSettled (Resolved image)))
          = Some (fst c1, [UploadDishImage image; GetLocation])) as H1.
  { rewrite (step_settle w n AwaitConvert (ConvertSettled (Resolved image)) _ Hn eq_refl).
    reflexivity. }
  assert (pending (fst c1) = P ++ [AwaitUpload; AwaitLocation image]) as Hp1
      by reflexivity.
  set (h2 := processImage_located image loc).
  set (c2 := commit (fst c1) (P ++ [AwaitUpload]) h2).
  assert (spawned (h2 (ui (fst c1))) = [AwaitIdentify]) as Hsp
      by (subst h2; destruct loc; reflexivity).
  assert (step (fst c1) (Settle (length (pending w)) (LocationSettled loc))
          = Some (fst c2, snd c2)) as H2.
  { rewrite Hlen.
    assert (nth_error (pending (fst c1)) (S (length P)) = Some (AwaitLocation image)) as Hl
        by (rewrite Hp1; apply nth_error_snoc2).
    rewrite (step_settle (fst c1) (S (length P)) (AwaitLocation image)
                         (LocationSettled loc) _ Hl eq_refl).
    rewrite Hp1, removeNth_snoc2. reflexivity. }
  assert (pending (fst c2) = P ++ [AwaitUpload; AwaitIdentify]) as Hp2.
  { unfold c2, commit. cbn [fst pending]. rewrite Hsp. now rewrite <- app_assoc. }
  set (h3 := (emitAll (map Console (AIService.identifyDishAndFindPlaces_console
                                      (Resolved response))) ;;
              processImage_identified
                (AIService.identifyDishAndFindPlaces (Resolved response)))%handler).
  set (c3 := commit (fst c2) (P ++ [AwaitUpload]) h3).
  assert (step (fst c2) (Settle (length (pending w)) (GenerateSettled (Resolved response)))
          = Some (fst c3, snd c3)) as H3.
  { rewrite Hlen.
    assert (nth_error (pending (fst c2)) (S (length P)) = Some AwaitIdentify) as Hi
        by (rewrite Hp2; apply nth_error_snoc2).
    rewrite (step_settle (fst c2) (S (length P)) AwaitIdentify
                         (GenerateSettled (Resolved response)) _ Hi eq_refl).
    rewrite Hp2, removeNth_snoc2. reflexivity. }
  exists (ui (fst c3)), ([GetLocation] ++ snd c2 ++ snd c3 ++ []). split.
  - rewrite <- (app_nil_r (P ++ [AwaitUpload])).
    apply (run_cons _ _ _ _ _ _ _ H1). apply (run_cons _ _ _ _ _ _ _ H2).
    apply (run_cons _ _ _ _ _ _ _ H3). reflexivity.
  - reflexivity.
Qed.

End Upload.

(** C10, as amended.  Entering [ANALYZING] starts the conversion of the
    image and nothing else.  The upload starts when the image has been
    converted, in the step that also starts the pipeline, and the pipeline
    then runs to [RESULTS] while the upload is still waiting; if the
    conversion fails no upload is started.  When the upload settles, well
    or badly, the state, the result and the error message stay as they
    are and the other waiting continuations stay in place. *)
Theorem upload_in_background (w : App.World) (n : nat) :
  (forall f,
     App.rendered (App.ui w) App.FileInput = true ->
     exists w',
       App.step w (App.ChooseFile (Some f)) = Some (w', [App.ConvertToJpeg f])
       /\ App.appState (App.ui w') = Types.ANALYZING
       /\ App.pending w' = App.pending w ++ [App.AwaitConvert])
  /\
  (nth_error (App.pending w) n = Some App.AwaitConvert ->
   forall image loc response,
   exists w' fx,
     App.run w [ App.Settle n (App.ConvertSettled (Resolved image));
                 App.Settle (length (App.pending w)) (App.LocationSettled loc);
                 App.Settle (length (App.pending w))
                            (App.GenerateSettled (Resolved response)) ]
     = Some (w', fx)
     /\ hd_error fx = Some (App.UploadDishImage image)
     /\ App.appState (App.ui w') = Types.RESULTS
     /\ App.pending w' = App.removeNth n (App.pending w) ++ [App.AwaitUpload])
  /\
  (nth_error (App.pending w) n = Some App.AwaitConvert ->
   forall e,
   exists w' fx,
     App.step w (App.Settle n (App.ConvertSettled (Rejected e))) = Some (w', fx)
     /\ existsb App.isUploadStart fx = false
     /\ App.appState (App.ui w') = Types.ERROR
     /\ App.pending w' = App.removeNth n (App.pending w))
  /\
  (nth_error (App.pending w) n = Some App.AwaitUpload ->
   forall r,
   exists w' fx,
     App.step w (App.Settle n (App.UploadSettled r)) = Some (w', fx)
     /\ existsb App.isUploadStart fx = false
     /\ App.appState (App.ui w') = App.appState (App.ui w)
     /\ App.analysisResult (App.ui w') = App.analysisResult (App.ui w)
     /\ App.errorMsg (App.ui w') = App.errorMsg (App.ui w)
     /\ App.pending w' = App.removeNth n (App.pending w)).
Proof.
  split; [|split; [|split]].
  - intros f Hr. unfold App.step, App.guarded. rewrite Hr.
    eexists. split; [reflexivity|]. split; reflexivity.
  - intros Hn image loc response.
    destruct (pipeline_without_upload w n image loc response Hn) as (s' & fx & Hrun & Hst).
    eexists. eexists. split; [exact Hrun|]. repeat split. exact Hst.
  - intros Hn e.
    rewrite (step_settle w n App.AwaitConvert (App.ConvertSettled (Rejected e)) _ Hn eq_refl).
    eexists. eexists. split; [reflexivity|]. simpl. rewrite app_nil_r. auto.
  - intros Hn r.
    rewrite (step_settle w n App.AwaitUpload (App.UploadSettled r) _ Hn eq_refl).
    eexists. eexists. split; [reflexivity|].
    destruct r; simpl; rewrite app_nil_r; auto 6.
Qed.

Lemma upload_in_background_witness :
  let idle := fst (Scenario.after (Scenario.scan ++ [App.ClickReset])) in
  let busy :=
    fst (Scenario.after
           (Scenario.scan ++ [App.ClickReset; App.ChooseFile (Some Scenario.photo)])) in
  (exists w',
     App.step idle (App.ChooseFile (Some Scenario.photo))
     = Some (w', [App.ConvertToJpeg Scenario.photo])
     /\ App.appState (App.ui w') = Types.ANALYZING
     /\ App.pending w' = App.pending idle ++ [App.AwaitConvert])
  /\
  (exists w' fx,
     App.run busy [ App.Settle 1 (App.ConvertSettled (Resolved Scenario.dataUrl));
                    App.Settle (length (App.pending busy))
                               (App.LocationSettled (Rejected Scenario.denied));
                    App.Settle (length (App.pending busy))
                               (App.GenerateSettled (Resolved Scenario.ramenResponse)) ]
     = Some (w', fx)
     /\ hd_error fx = Some (App.UploadDishImage Scenario.dataUrl)
     /\ App.appState (App.ui w') = Types.RESULTS
     /\ App.pending w' = App.removeNth 1 (App.pending busy) ++ [App.AwaitUpload])
  /\
  (exists w' fx,
     App.step busy (App.Settle 1 (App.ConvertSettled (Rejected Scenario.denied)))
     = Some (w', fx)
     /\ existsb App.isUploadStart fx = false
     /\ App.appState (App.ui w') = Types.ERROR
     /\ App.pending w' = App.removeNth 1 (App.pending busy))
  /\
  (exists w' fx,
     App.step busy (App.Settle 0 (App.UploadSettled (Rejected Scenario.denied)))
     = Some (w', fx)
     /\ existsb App.isUploadStart fx = false
     /\ App.appState (App.ui w') = App.appState (App.ui busy)
     /\ App.analysisResult (App.ui w') = App.analysisResult (App.ui busy)
     /\ App.errorMsg (App.ui w') = App.errorMsg (App.ui busy)
     /\ App.pending w' = App.removeNth 0 (App.pending busy)).
Proof.
  intros idle busy. split; [|split; [|split]].
  - apply (proj1 (upload_in_background idle 0) Scenario.photo). vm_compute. reflexivity.
  - apply (proj1 (proj2 (upload_in_background busy 1))). vm_compute. reflexivity.
  - apply (proj1 (proj2 (proj2 (upload_in_background busy 1)))). vm_compute. reflexivity.
  - apply (proj2 (proj2 (proj2 (upload_in_background busy 0)))). vm_compute. reflexivity.
Defined.

(** C10 as the specification words it does not hold: entering
    [ANALYZING] starts the conversion only, and when the conversion fails
    the run ends in [ERROR] with no upload ever started and nothing left
    waiting. *)
Lemma upload_not_started_on_entering :
  option_map (fun r => (App.appState (App.ui (fst r)), snd r))
    (App.step Scenario.start (App.ChooseFile (Some Scenario.photo)))
  = Some (Types.ANALYZING, [App.ConvertToJpeg Scenario.photo])
  /\
  option_map (fun r => (App.appState (App.ui (fst r)), App.pending (fst r),
                        existsb App.isUploadStart (snd r)))
    (App.run Scenario.start
       [ App.ChooseFile (Some Scenario.photo);
         App.Settle 0 (App.ConvertSettled (Rejected Scenario.denied)) ])
  = Some (Types.ERROR, [], false).
Proof. vm_compute. split; reflexivity. Qed.

(* ------------------------------------------------------------------ *)
(** * Further properties of the analysis client *)

Section Client.
Import Types AIService Regex RegexSpec.

Lemma trim_trimmed (s : JS.str) : trimmed (JS.trim s) = true.
Proof.
  unfold JS.trim. set (d := JS.dropWhile JS.isSpace s).
  destruct (JS.dropWhile JS.isSpace (rev d)) as [|x e] eqn:E; [reflexivity|].
  pose proof (dropWhile_head _ _ _ _ E) as Hx.
  destruct (dropWhile_suffix JS.isSpace (rev d)) as [b Hb]. rewrite E in Hb.
  assert (d = rev (x :: e) ++ rev b) as Hd.
  { rewrite <- rev_app_distr, <- Hb. symmetry. apply rev_involutive. }
  destruct (rev (x :: e)) as [|y t] eqn:Er.
  { apply (f_equal (@length Z)) in Er. rewrite length_rev in Er. discriminate. }
  unfold trimmed. apply andb_true_iff. split.
  - apply negb_true_iff. subst d. simpl in Hd.
    exact (dropWhile_head _ _ _ _ Hd).
  - rewrite <- Er. simpl rev. rewrite last_last. now apply negb_true_iff.
Qed.

Lemma forallb_trim (p : Z -> bool) (s : JS.str) :
  forallb p s = true -> forallb p (JS.trim s) = true.
Proof.
  destruct (trim_infix s) as (a & b & Hs). intros H. rewrite Hs in H.
  rewrite !forallb_app in H. apply andb_true_iff in H as [_ H].
  now apply andb_true_iff in H as [H _].
Qed.

Lemma Forall_forallb (p : Z -> bool) (s : JS.str) :
  Forall (fun c => p c = true) s -> forallb p s = true.
Proof. intros H. apply forallb_forall. now apply Forall_forall. Qed.

Lemma phoneChar_dialChar (c : Z) : phoneChar c = true -> dialChar c = true.
Proof. unfold dialChar. now intros ->. Qed.

Lemma sepChar_dialChar (c : Z) : sepChar c = true -> dialChar c = true.
Proof.
  unfold sepChar, dialChar, phoneChar.
  destruct (c =? 43), (JS.isDigit c), (JS.isSpace c), (c =? 40), (c =? 41),
    (c =? 45), (c =? 46); simpl; intros H; try discriminate; reflexivity.
Qed.

Lemma isDigit_dialChar (c : Z) : JS.isDigit c = true -> dialChar c = true.
Proof. unfold dialChar, phoneChar. intros ->. now rewrite ?orb_true_r. Qed.

Lemma segment_dial (a : Atom) (seg : JS.str) :
  (forall c, accepts a c = true -> dialChar c = true) ->
  segmentOk a seg -> forallb dialChar seg = true.
Proof.
  intros Hsub (Hall & _). apply Forall_forallb.
  apply Forall_forall. intros c Hc. apply Hsub.
  exact (proj1 (Forall_forall _ _) Hall c Hc).
Qed.

Lemma bare_dial (segs : list JS.str) :
  denotes bare segs -> forallb dialChar (concat segs) = true.
Proof.
  unfold denotes, bare. intros H.
  repeat match goal with
         | H : Forall2 _ (_ :: _) _ |- _ => inversion H; subst; clear H
         | H : Forall2 _ [] _ |- _ => inversion H; subst; clear H
         end.
  simpl concat. rewrite !forallb_app.
  repeat match goal with
         | H : segmentOk _ ?seg |- _ =>
             apply segment_dial in H;
             [ rewrite H; clear H
             | simpl; intros c Hc;
               first [ exact (isDigit_dialChar c Hc)
                     | exact (sepChar_dialChar c Hc)
                     | unfold chr in Hc; apply Z.eqb_eq in Hc; subst c; reflexivity ] ]
         end.
  reflexivity.
Qed.

Lemma phoneMatch_dial (w g : JS.str) :
  phoneMatch w = Some g -> forallb dialChar g = true.
Proof.
  unfold phoneMatch. destruct (matchGroup1 labeled w) as [g'|] eqn:E.
  - intros [= <-]. apply matchGroup1_Some, labeled_captures in E.
    destruct E as (_ & _ & _ & _ & _ & _ & _ & Hg & _).
    apply Forall_forallb. apply Forall_forall. intros c Hc.
    apply phoneChar_dialChar. exact (proj1 (Forall_forall _ _) Hg c Hc).
  - intros H. apply matchGroup1_Some in H as (pre & segs & post & _ & Hden & ->).
    rewrite (bare_group1 segs Hden). now apply bare_dial.
Qed.

(** The step's three outcomes, whatever the chunk. *)
Lemma enrichChunk_cases (text : JS.str) (chunk : GroundingChunk) :
  enrichChunk text chunk = chunk
  \/ exists m i g,
       maps chunk = Some m /\ JS.truthy (title m) = true
       /\ JS.indexOf text (title m) = Some i
       /\ phoneMatch (JS.slice text i (i + 400)) = Some g
       /\ enrichChunk text chunk = withPhone m (JS.trim g).
Proof.
  unfold enrichChunk. destruct (maps chunk) as [m|] eqn:Hm; [|now left].
  destruct (JS.truthy (title m)) eqn:Ht; [|now left].
  destruct (JS.indexOf text (title m)) as [i|] eqn:Hi; [|now left].
  destruct (phoneMatch (JS.slice text i (i + 400))) as [g|] eqn:Hg; [|now left].
  rewrite slice_window in Hg. rewrite (phoneMatch_truthy _ _ Hg).
  right. exists m, i, g. rewrite slice_window. auto.
Qed.

Lemma enrichChunk_samePlace (text : JS.str) (chunk : GroundingChunk) :
  samePlace chunk (enrichChunk text chunk).
Proof.
  destruct (enrichChunk_cases text chunk) as [-> | (m & i & g & Hm & _ & _ & _ & ->)].
  - unfold samePlace. destruct (maps chunk); auto.
  - unfold samePlace. rewrite Hm. simpl. auto.
Qed.

Lemma enrichChunk_untitled (text : JS.str) (chunk : GroundingChunk) :
  untitled chunk = true -> enrichChunk text chunk = chunk.
Proof.
  unfold untitled, enrichChunk. destruct (maps chunk) as [m|]; [|reflexivity].
  intros H. apply negb_true_iff in H. now rewrite H.
Qed.

End Client.

(** X1. The result lists the places in the order the service gave them,
    one for one: the place at index [i] is the [i]th raw chunk with its
    uri, title, address and sources as they were, so that only the phone
    number can differ; a chunk without a place, or with an empty title,
    comes back as it was. *)
Theorem analyze_keeps_places (response : AIService.GenerateContentResponse)
    (i : nat) (c : Types.GroundingChunk) :
  nth_error (AIService.rawChunks response) i = Some c ->
  length (Types.groundingChunks (AIService.analyze response))
  = length (AIService.rawChunks response)
  /\ exists c',
       nth_error (Types.groundingChunks (AIService.analyze response)) i = Some c'
       /\ samePlace c c'
       /\ (untitled c = true -> c' = c).
Proof.
  intros Hc. unfold AIService.analyze. simpl Types.groundingChunks. split.
  - apply length_map.
  - exists (AIService.enrichChunk (AIService.responseText response) c).
    split; [now rewrite nth_error_map, Hc|].
    split; [apply enrichChunk_samePlace | apply enrichChunk_untitled].
Qed.

Lemma analyze_keeps_places_witness :
  length (Types.groundingChunks (AIService.analyze Scenario.ramenResponse))
  = length (AIService.rawChunks Scenario.ramenResponse)
  /\ exists c',
       nth_error (Types.groundingChunks (AIService.analyze Scenario.ramenResponse)) 0
       = Some c'
       /\ samePlace Scenario.noodleChunk c'
       /\ (untitled Scenario.noodleChunk = true -> c' = Scenario.noodleChunk).
Proof.
  apply (analyze_keeps_places Scenario.ramenResponse 0 Scenario.noodleChunk).
  reflexivity.
Defined.

(** X2. Enriching a chunk that was already enriched against the same text
    changes nothing. *)
Theorem enrichChunk_idempotent (text : JS.str) (chunk : Types.GroundingChunk) :
  AIService.enrichChunk text (AIService.enrichChunk text chunk)
  = AIService.enrichChunk text chunk.
Proof.
  destruct (enrichChunk_cases text chunk)
    as [H | (m & i & g & Hm & Ht & Hi & Hg & ->)]; [rewrite H; exact H|].
  unfold AIService.enrichChunk at 1. simpl Types.maps. cbv iota beta.
  simpl Types.title. rewrite Ht, Hi, Hg.
  rewrite slice_window in Hg. now rewrite (phoneMatch_truthy _ _ Hg).
Qed.

(** X3. A phone number the step attaches has no white space at its ends
    and is made of digits, white space, parentheses, hyphen, plus and dot
    only. *)
Theorem attached_number_shape (text : JS.str) (chunk : Types.GroundingChunk) :
  AIService.enrichChunk text chunk <> chunk ->
  exists m p,
    Types.maps chunk = Some m
    /\ AIService.enrichChunk text chunk = AIService.withPhone m p
    /\ trimmed p = true
    /\ forallb dialChar p = true.
Proof.
  intros Hch.
  destruct (enrichChunk_cases text chunk)
    as [H | (m & i & g & Hm & _ & _ & Hg & ->)]; [now elim Hch|].
  exists m, (JS.trim g). split; [exact Hm|]. split; [reflexivity|].
  split; [apply trim_trimmed|]. apply forallb_trim. exact (phoneMatch_dial _ _ Hg).
Qed.

Lemma attached_number_shape_witness :
  exists m p,
    Types.maps Scenario.noodleChunk = Some m
    /\ AIService.enrichChunk Scenario.ramenText Scenario.noodleChunk
       = AIService.withPhone m p
    /\ trimmed p = true
    /\ forallb dialChar p = true.
Proof.
  apply (attached_number_shape Scenario.ramenText Scenario.noodleChunk).
  vm_compute. discriminate.
Defined.

Section Fields.
Import Types AIService.

Lemma orElse_truthy (a d : JS.str) : JS.truthy d = true -> JS.truthy (JS.orElse a d) = true.
Proof. unfold JS.orElse. destruct (JS.truthy a) eqn:E; auto. Qed.

Lemma orElse_both (P : JS.str -> bool) (a d : JS.str) :
  P a = true -> P d = true -> P (JS.orElse a d) = true.
Proof. unfold JS.orElse. destruct (JS.truthy a); auto. Qed.

Lemma removeAll_clean (cls : Z -> bool) (s : JS.str) :
  forallb (fun c => negb (cls c)) (JS.removeAll cls s) = true.
Proof.
  unfold JS.removeAll. apply forallb_forall. intros c Hc.
  now apply filter_In in Hc.
Qed.

End Fields.

(** X4. Whatever the service answers, the result's dish name, description
    and raw text are not empty; the dish name and the description have no
    white space at their ends, and the dish name holds no [*] and no
    [#]. *)
Theorem result_fields_clean (response : AIService.GenerateContentResponse) :
  let result := AIService.analyze response in
  JS.truthy (Types.dishName result) = true
  /\ JS.truthy (Types.description result) = true
  /\ JS.truthy (Types.rawText result) = true
  /\ trimmed (Types.dishName result) = true
  /\ trimmed (Types.description result) = true
  /\ forallb (fun c => negb (AIService.markdownMarker c)) (Types.dishName result) = true.
Proof.
  unfold AIService.analyze. simpl.
  set (text := AIService.responseText response).
  assert (JS.truthy text = true) as Htext.
  { subst text. unfold AIService.responseText.
    destruct (AIService.text response); [now apply orElse_truthy | reflexivity]. }
  unfold AIService.parseDishName, AIService.parseDescription.
  repeat split.
  - destruct (nth_error (AIService.lines text) 0); [now apply orElse_truthy | reflexivity].
  - now apply orElse_truthy.
  - exact Htext.
  - destruct (nth_error (AIService.lines text) 0); [|reflexivity].
    apply (orElse_both trimmed); [apply trim_trimmed | reflexivity].
  - apply (orElse_both trimmed); [apply trim_trimmed | reflexivity].
  - destruct (nth_error (AIService.lines text) 0); [|reflexivity].
    apply (orElse_both (forallb (fun c => negb (AIService.markdownMarker c))));
      [apply forallb_trim, removeAll_clean | reflexivity].
Qed.

(* ------------------------------------------------------------------ *)
(** * Further properties of the scan *)

Section Scan.
Import Types App.

Lemma split_commaFree (s : JS.str) : commaFree s = true -> JS.split 44 s = [s].
Proof.
  induction s as [|c s IH]; simpl; [reflexivity|].
  intros H. apply andb_true_iff in H as [Hc Hs].
  apply negb_true_iff in Hc. rewrite Hc, (IH Hs). reflexivity.
Qed.

Lemma split_at_comma (a b : JS.str) :
  commaFree a = true -> JS.split 44 (a ++ 44 :: b) = a :: JS.split 44 b.
Proof.
  induction a as [|c a IH]; simpl; [reflexivity|].
  intros H. apply andb_true_iff in H as [Hc Ha].
  apply negb_true_iff in Hc. rewrite Hc, (IH Ha). reflexivity.
Qed.

End Scan.

(** X5. The image handed to the service is what follows the comma of the
    data URL: for a URL made of a comma-free header, a comma and a
    comma-free payload, the request carries the payload, as [image/jpeg],
    with the position when there is one; for a URL without a comma it
    carries no data at all. *)
Theorem request_carries_payload (header payload : JS.str)
    (loc : Settled Types.LocationData) (s : App.State) :
  commaFree header = true ->
  commaFree payload = true ->
  last (App.effects (App.processImage_located (header ++ 44 :: payload) loc s))
       App.GetLocation
  = App.GenerateContent (Some payload) (js "image/jpeg") (positionOf loc)
  /\
  last (App.effects (App.processImage_located header loc s)) App.GetLocation
  = App.GenerateContent None (js "image/jpeg") (positionOf loc).
Proof.
  intros Hh Hp. unfold App.processImage_located.
  rewrite (split_at_comma header payload Hh), (split_commaFree payload Hp).
  rewrite (split_commaFree header Hh).
  destruct loc; split; reflexivity.
Qed.

Lemma request_carries_payload_witness :
  last (App.effects
          (App.processImage_located (js "data:image/jpeg;base64" ++ 44 :: js "AAAA")
             (Rejected Scenario.denied) App.initialState))
       App.GetLocation
  = App.GenerateContent (Some (js "AAAA")) (js "image/jpeg") None
  /\
  last (App.effects
          (App.processImage_located (js "data:image/jpeg;base64")
             (Rejected Scenario.denied) App.initialState))
       App.GetLocation
  = App.GenerateContent None (js "image/jpeg") None.
Proof.
  apply (request_carries_payload (js "data:image/jpeg;base64") (js "AAAA")
           (Rejected Scenario.denied) App.initialState); reflexivity.
Defined.

(** X6. The position is optional.  When [getLocation] settles, well or
    badly, the machine's state, result and error message stay as they are
    and the analysis call is started and awaited: with the position if
    there is one, which is then also stored, and without it otherwise. *)
Theorem location_is_optional (w : App.World) (n : nat) (image : JS.str)
    (loc : Settled Types.LocationData) :
  nth_error (App.pending w) n = Some (App.AwaitLocation image) ->
  exists w' fx data,
    App.step w (App.Settle n (App.LocationSettled loc)) = Some (w', fx)
    /\ last fx App.GetLocation
       = App.GenerateContent data (js "image/jpeg") (positionOf loc)
    /\ App.appState (App.ui w') = App.appState (App.ui w)
    /\ App.analysisResult (App.ui w') = App.analysisResult (App.ui w)
    /\ App.errorMsg (App.ui w') = App.errorMsg (App.ui w)
    /\ App.location (App.ui w')
       = match loc with
         | Resolved l => Some l
         | Rejected _ => App.location (App.ui w)
         end
    /\ App.pending w' = App.removeNth n (App.pending w) ++ [App.AwaitIdentify].
Proof.
  intros Hn.
  rewrite (step_settle w n (App.AwaitLocation image) (App.LocationSettled loc) _ Hn eq_refl).
  eexists. eexists. eexists. split; [reflexivity|].
  destruct loc; simpl; repeat split; reflexivity.
Qed.

Lemma location_is_optional_witness :
  let w := fst (Scenario.after Scenario.choose) in
  exists w' fx data,
    App.step w (App.Settle 1 (App.LocationSettled (Rejected Scenario.denied)))
    = Some (w', fx)
    /\ last fx App.GetLocation = App.GenerateContent data (js "image/jpeg") None
    /\ App.appState (App.ui w') = App.appState (App.ui w)
    /\ App.analysisResult (App.ui w') = App.analysisResult (App.ui w)
    /\ App.errorMsg (App.ui w') = App.errorMsg (App.ui w)
    /\ App.location (App.ui w') = App.location (App.ui w)
    /\ App.pending w' = App.removeNth 1 (App.pending w) ++ [App.AwaitIdentify].
Proof.
  intros w.
  apply (location_is_optional w 1 Scenario.dataUrl (Rejected Scenario.denied)).
  vm_compute. reflexivity.
Defined.

(** X7. Capture asks for a session.  On the idle screen, with nobody
    signed in, the capture button clears the error message, shows the
    sign-in page and opens no file picker; on that page neither the
    button nor the file input is offered, and a sign-in brings the idle
    screen back.  With a user signed in, the button opens the file picker
    and changes neither page nor state. *)
Theorem capture_needs_session (w : App.World) :
  App.rendered (App.ui w) App.CaptureButton = true ->
  App.appState (App.ui w) = Types.IDLE ->
  match App.currentUser w with
  | None =>
      exists w',
        App.step w App.ClickCapture = Some (w', [])
        /\ App.currentPage (App.ui w') = js "auth"
        /\ App.appState (App.ui w') = App.appState (App.ui w)
        /\ App.errorMsg (App.ui w') = None
        /\ App.pending w' = App.pending w
        /\ App.step w' App.ClickCapture = None
        /\ (forall f, App.step w' (App.ChooseFile f) = None)
        /\ exists w'',
             App.step w' App.AuthSuccess = Some (w'', [])
             /\ App.rendered (App.ui w'') App.CaptureButton = true
  | Some _ =>
      exists w',
        App.step w App.ClickCapture = Some (w', [App.FileInputClick])
        /\ App.currentPage (App.ui w') = App.currentPage (App.ui w)
        /\ App.appState (App.ui w') = App.appState (App.ui w)
        /\ App.errorMsg (App.ui w') = None
        /\ App.pending w' = App.pending w
  end.
Proof.
  intros Hr Hidle. unfold App.step, App.guarded, App.commit, App.idleUser. rewrite Hr.
  change (App.rendered (App.ui w) App.FileInput)
    with (App.rendered (App.ui w) App.CaptureButton).
  rewrite Hr, Hidle. cbn [App.isState]. destruct (App.currentUser w) as [u|].
  - eexists. split; [reflexivity|]. simpl. rewrite app_nil_r, ?Hidle. auto.
  - eexists. split; [reflexivity|]. simpl. rewrite app_nil_r, ?Hidle.
    repeat split; try reflexivity.
    eexists. split; [reflexivity|]. simpl. now rewrite Hidle.
Qed.

Lemma capture_needs_session_witness :
  exists w',
    App.step (App.initialWorld None) App.ClickCapture = Some (w', [])
    /\ App.currentPage (App.ui w') = js "auth"
    /\ App.appState (App.ui w') = App.appState (App.ui (App.initialWorld None))
    /\ App.errorMsg (App.ui w') = None
    /\ App.pending w' = App.pending (App.initialWorld None)
    /\ App.step w' App.ClickCapture = None
    /\ (forall f, App.step w' (App.ChooseFile f) = None)
    /\ exists w'',
         App.step w' App.AuthSuccess = Some (w'', [])
         /\ App.rendered (App.ui w'') App.CaptureButton = true.
Proof.
  apply (capture_needs_session (App.initialWorld None)); reflexivity.
Defined.

(** X8. One scan at a time, as long as the leaving idle view is left
    alone.  [CAPTURING] is never entered.  In a run that uses the capture
    button and the file input in [IDLE] only, never while the idle view
    plays its exit animation, exactly one continuation of the pipeline
    waits while the state is [ANALYZING] and none otherwise,
    [analysisResult] is set exactly in [RESULTS], and [errorMsg] exactly
    in [ERROR]. *)
Theorem one_scan_at_a_time (u : option App.User) (es : list App.Event)
    (w : App.World) (fx : list App.Effect) :
  App.run (App.initialWorld u) es = Some (w, fx) ->
  App.appState (App.ui w) <> Types.CAPTURING
  /\ (orderly (App.initialWorld u) es = true ->
      pipelineCount (App.pending w)
      = (if App.isState (App.appState (App.ui w)) Types.ANALYZING then 1 else 0)%nat
      /\ (App.analysisResult (App.ui w) <> None
          <-> App.appState (App.ui w) = Types.RESULTS)
      /\ (App.errorMsg (App.ui w) <> None <-> App.appState (App.ui w) = Types.ERROR)).
Proof.
  intros Hrun. split.
  - exact (proj1 (proj2 (run_tidy es _ w fx (initial_tidy u) Hrun))).
  - intros Ho.
    pose proof (run_consistent es _ w fx (initial_consistent u) Ho Hrun) as Hc.
    unfold consistent, sound in Hc.
    destruct (App.appState (App.ui w)); try contradiction;
      destruct Hc as (Hres & Herr & Hpipe); (split; [exact Hpipe|]);
      split; split; intros H;
      try reflexivity; try discriminate; try assumption;
      try (rewrite Hres in H; now elim H); try (rewrite Herr in H; now elim H).
Qed.

Lemma one_scan_at_a_time_witness :
  let w := fst (Scenario.after Scenario.locate) in
  App.appState (App.ui w) <> Types.CAPTURING
  /\ (orderly (App.initialWorld (Some Scenario.diner)) Scenario.locate = true ->
      pipelineCount (App.pending w)
      = (if App.isState (App.appState (App.ui w)) Types.ANALYZING then 1 else 0)%nat
      /\ (App.analysisResult (App.ui w) <> None
          <-> App.appState (App.ui w) = Types.RESULTS)
      /\ (App.errorMsg (App.ui w) <> None <-> App.appState (App.ui w) = Types.ERROR)).
Proof.
  intros w.
  apply (one_scan_at_a_time (Some Scenario.diner) Scenario.locate w
           (snd (Scenario.after Scenario.locate))).
  vm_compute. reflexivity.
Defined.

(** The run of the witness is one that leaves the leaving idle view
    alone; a second file chosen during the exit animation is not. *)
Example orderly_examples :
  orderly (App.initialWorld (Some Scenario.diner)) Scenario.locate = true
  /\ orderly (App.initialWorld (Some Scenario.diner))
             [ App.ChooseFile (Some Scenario.photo);
               App.ChooseFile (Some Scenario.menu) ] = false.
Proof. vm_compute. split; reflexivity. Qed.

(** X9. No dead end.  In every world reached from the initial one that
    shows the main view in [RESULTS] or [ERROR], the reset is offered as
    soon as the idle view has left, which it has or is about to; the
    reset has no effect outside the component, leads to [IDLE] with the
    preview, the result, the uploaded URL and the error message cleared,
    leaves the waiting continuations alone, and the file input is offered
    again. *)
Theorem reset_always_offered (u : option App.User) (es : list App.Event)
    (w : App.World) (fx : list App.Effect) :
  App.run (App.initialWorld u) es = Some (w, fx) ->
  App.mainView (App.ui w) = true ->
  App.appState (App.ui w) = Types.RESULTS \/ App.appState (App.ui w) = Types.ERROR ->
  exists w1,
    (App.leaving (App.ui w) = false /\ w1 = w
     \/ App.leaving (App.ui w) = true /\ App.step w App.ExitComplete = Some (w1, []))
    /\ exists w',
         App.step w1 App.ClickReset = Some (w', [])
         /\ App.appState (App.ui w') = Types.IDLE
         /\ App.imagePreview (App.ui w') = None
         /\ App.analysisResult (App.ui w') = None
         /\ App.uploadedImageUrl (App.ui w') = None
         /\ App.errorMsg (App.ui w') = None
         /\ App.pending w' = App.pending w
         /\ App.rendered (App.ui w') App.FileInput = true.
Proof.
  intros Hrun Hmain Hst.
  pose proof (run_tidy es _ w fx (initial_tidy u) Hrun) as (Hres & _ & _).
  assert (forall w1 : App.World,
            App.ui w1 = App.setIdleLeaving None (App.ui w) ->
            App.pending w1 = App.pending w ->
            exists w',
              App.step w1 App.ClickReset = Some (w', [])
              /\ App.appState (App.ui w') = Types.IDLE
              /\ App.imagePreview (App.ui w') = None
              /\ App.analysisResult (App.ui w') = None
              /\ App.uploadedImageUrl (App.ui w') = None
              /\ App.errorMsg (App.ui w') = None
              /\ App.pending w' = App.pending w
              /\ App.rendered (App.ui w') App.FileInput = true) as Hreset.
  { intros w1 Hui Hpend.
    assert (App.rendered (App.ui w1) App.ScanAnotherButton
            || App.rendered (App.ui w1) App.TryAgainButton = true) as Hoffer.
    { rewrite Hui. apply rendered_reset_offered; [exact Hmain | reflexivity |].
      destruct Hst as [Hst | Hst]; auto. }
    assert (App.rendered (App.ui w1) App.FileInput = false) as Hinput.
    { rewrite Hui. unfold App.rendered.
      change (App.mainView (App.ui w)
              && (App.isState (App.appState (App.ui w)) Types.IDLE || false) = false).
      destruct Hst as [-> | ->]; simpl; apply andb_false_r. }
    unfold App.step, App.guarded, App.commit. rewrite Hoffer, Hinput, Hui, Hpend.
    eexists. split; [reflexivity|]. simpl. rewrite app_nil_r.
    repeat split. unfold App.mainView in *. simpl. now rewrite Hmain. }
  destruct (App.leaving (App.ui w)) eqn:Hl.
  - exists (App.mkWorld (App.setIdleLeaving None (App.ui w)) (App.currentUser w)
                        (App.pending w)).
    split.
    + right. split; [reflexivity|]. unfold App.step. now rewrite Hmain, Hl.
    + now apply Hreset.
  - exists w. split; [now left|]. apply Hreset; [|reflexivity].
    unfold App.leaving in Hl. destruct (App.idleLeaving (App.ui w)) eqn:E; [discriminate|].
    rewrite <- E. symmetry. apply setIdleLeaving_same.
Qed.

Lemma reset_always_offered_witness :
  let w := fst (Scenario.after Scenario.scan) in
  exists w1,
    (App.leaving (App.ui w) = false /\ w1 = w
     \/ App.leaving (App.ui w) = true /\ App.step w App.ExitComplete = Some (w1, []))
    /\ exists w',
         App.step w1 App.ClickReset = Some (w', [])
         /\ App.appState (App.ui w') = Types.IDLE
         /\ App.imagePreview (App.ui w') = None
         /\ App.analysisResult (App.ui w') = None
         /\ App.uploadedImageUrl (App.ui w') = None
         /\ App.errorMsg (App.ui w') = None
         /\ App.pending w' = App.pending w
         /\ App.rendered (App.ui w') App.FileInput = true.
Proof.
  intros w.
  apply (reset_always_offered (Some Scenario.diner) Scenario.scan w
           (snd (Scenario.after Scenario.scan))).
  - vm_compute. reflexivity.
  - vm_compute. reflexivity.
  - left. vm_compute. reflexivity.
Defined.

(* ------------------------------------------------------------------ *)
(** * Further properties of ordering *)

Section Orders.
Import Types App.

Lemma orderBacked_same (s s' : State) :
  showDeliveryModal s' = showDeliveryModal s ->
  pendingOrder s' = pendingOrder s ->
  orderBacked s -> orderBacked s'.
Proof. unfold orderBacked. intros -> ->. auto. Qed.

Lemma orderBacked_closed (s s' : State) :
  showDeliveryModal s' = false ->
  pendingOrder s' = pendingOrder s \/ pendingOrder s' = None ->
  orderBacked s -> orderBacked s'.
Proof.
  unfold orderBacked. intros Hm Hp [_ H]. split.
  - rewrite Hm. discriminate.
  - intros po Hpo. destruct Hp as [Hp | Hp]; rewrite Hp in Hpo;
      [now apply H | discriminate].
Qed.

Lemma orderBacked_whatsApp (phone title : option JS.str) (s : State) :
  orderBacked s -> orderBacked (next (handleWhatsAppClick phone title s)).
Proof.
  intros Hb. unfold handleWhatsAppClick.
  destruct phone as [p|]; [destruct (JS.truthy p) eqn:Hp|];
    try (apply (orderBacked_same s); [reflexivity | reflexivity | exact Hb]).
  simpl. split; [discriminate|]. intros po [= <-]. simpl. split; [exact Hp|].
  destruct title as [t|]; [now apply orElse_truthy | reflexivity].
Qed.

Lemma orderBacked_delivery (u : option User) (now provider : JS.str) (s : State) :
  orderBacked s -> orderBacked (next (handleDeliverySelection u now provider s)).
Proof.
  intros Hb. unfold handleDeliverySelection.
  destruct (pendingOrder s) as [po|] eqn:Hpo; [|exact Hb].
  destruct (URI.encodeURIComponent _); [|exact Hb].
  apply (orderBacked_closed s); [reflexivity | now right | exact Hb].
Qed.

Lemma orderBacked_kept (s s' : State) :
  showDeliveryModal s' = showDeliveryModal s /\ pendingOrder s' = pendingOrder s ->
  orderBacked s -> orderBacked s'.
Proof. intros [Hm Hp]. now apply orderBacked_same. Qed.

Lemma order_kept_capture (u : option User) (b : bool) (s : State) :
  showDeliveryModal (next (handleCapture u b s)) = showDeliveryModal s
  /\ pendingOrder (next (handleCapture u b s)) = pendingOrder s.
Proof. destruct u; [destruct b|]; split; reflexivity. Qed.

Lemma order_kept_file (f : option File) (s : State) :
  showDeliveryModal (next (handleFileChange f s)) = showDeliveryModal s
  /\ pendingOrder (next (handleFileChange f s)) = pendingOrder s.
Proof. destruct f; split; reflexivity. Qed.

Lemma order_kept_reset (b : bool) (s : State) :
  showDeliveryModal (next (resetApp b s)) = showDeliveryModal s
  /\ pendingOrder (next (resetApp b s)) = pendingOrder s.
Proof. destruct b; split; reflexivity. Qed.

Lemma order_kept_resume (t : Task) (v : Settlement) (h : Handler) (s : State) :
  resume t v = Some h ->
  showDeliveryModal (next (h s)) = showDeliveryModal s
  /\ pendingOrder (next (h s)) = pendingOrder s.
Proof.
  destruct t, v; simpl; try discriminate; intros [= <-].
  - destruct r; split; reflexivity.
  - destruct r; split; reflexivity.
  - destruct r; split; reflexivity.
  - destruct r; split; reflexivity.
Qed.

(** Every step keeps the order behind the modal. *)
Lemma step_orderBacked (w w' : World) (e : Event) (fx : list Effect) :
  orderBacked (ui w) -> step w e = Some (w', fx) -> orderBacked (ui w').
Proof.
  intros Hb Hstep. destruct e; unfold step in Hstep.
  - apply guarded_Some in Hstep as (_ & -> & _).
    exact (orderBacked_kept _ _ (order_kept_capture _ _ _) Hb).
  - apply guarded_Some in Hstep as (_ & -> & _).
    exact (orderBacked_kept _ _ (order_kept_file _ _) Hb).
  - destruct (chunkAt (ui w) idx) as [c|]; [|discriminate].
    apply guarded_Some in Hstep as (_ & -> & _). now apply orderBacked_whatsApp.
  - apply guarded_Some in Hstep as (_ & -> & _).
    exact (orderBacked_kept _ _ (order_kept_reset _ _) Hb).
  - apply guarded_Some in Hstep as (_ & -> & _). now apply orderBacked_delivery.
  - apply guarded_Some in Hstep as (_ & -> & _).
    apply (orderBacked_closed (ui w)); [reflexivity | now left | exact Hb].
  - apply guarded_Some in Hstep as (_ & -> & _). exact Hb.
  - apply guarded_Some in Hstep as (_ & -> & _). exact Hb.
  - injection Hstep as <- _. exact Hb.
  - destruct (nth_error (pending w) n) as [t|] eqn:Hn; [|discriminate].
    destruct (resume t v) as [h|] eqn:Hr; [|discriminate].
    assert (w' = fst (commit w (removeNth n (pending w)) h)) as ->
      by (inversion Hstep; reflexivity).
    exact (orderBacked_kept _ _ (order_kept_resume t v h (ui w) Hr) Hb).
  - destruct (mainView (ui w) && leaving (ui w)); [|discriminate].
    injection Hstep as <- _. exact Hb.
Qed.

Lemma run_orderBacked (es : list Event) (w w' : World) (fx : list Effect) :
  orderBacked (ui w) -> run w es = Some (w', fx) -> orderBacked (ui w').
Proof.
  revert w fx; induction es as [|e es IH]; intros w fx Hb; simpl.
  - now intros [= <- _].
  - destruct (step w e) as [[w1 fx1]|] eqn:E; [|discriminate].
    destruct (run w1 es) as [[w2 fx2]|] eqn:R; [|discriminate].
    intros [= <- _]. exact (IH w1 fx2 (step_orderBacked w w1 e fx1 Hb E) R).
Qed.

Lemma initial_orderBacked (u : option User) : orderBacked (ui (initialWorld u)).
Proof. split; simpl; [discriminate | intros po; discriminate]. Qed.

End Orders.

(** X10. The modal always has its order.  In every world reached from the
    initial one, while the delivery modal is open an order is pending
    whose phone number and restaurant name are not empty; so choosing a
    provider never returns silently: it either tracks the lead and opens
    one window, clearing the order and closing the modal, or stops at the
    [URIError] of a message that cannot be encoded, leaving the state as
    it was. *)
Theorem modal_has_order (u : option App.User) (es : list App.Event)
    (w : App.World) (fx : list App.Effect) (provider now : JS.str) :
  App.run (App.initialWorld u) es = Some (w, fx) ->
  App.deliveryModalOpen (App.ui w) = true ->
  exists po w' fx',
    App.pendingOrder (App.ui w) = Some po
    /\ JS.truthy (App.phone po) = true
    /\ JS.truthy (App.title po) = true
    /\ App.step w (App.SelectProvider provider now) = Some (w', fx')
    /\ ((exists lead url,
           fx' = [App.TrackLead lead; App.WindowOpen url (js "_blank")]
           /\ App.pendingOrder (App.ui w') = None
           /\ App.showDeliveryModal (App.ui w') = false)
        \/ (fx' = [App.Uncaught (js "URIError")] /\ App.ui w' = App.ui w)).
Proof.
  intros Hrun Hopen.
  pose proof (run_orderBacked es _ w fx (initial_orderBacked u) Hrun) as [Hmodal Horder].
  assert (App.showDeliveryModal (App.ui w) = true) as Hshow.
  { unfold App.deliveryModalOpen in Hopen. now apply andb_true_iff in Hopen. }
  destruct (App.pendingOrder (App.ui w)) as [po|] eqn:Hpo; [|now elim (Hmodal Hshow)].
  destruct (Horder po eq_refl) as [Hphone Htitle].
  unfold App.step, App.guarded, App.commit. rewrite Hopen.
  unfold App.handleDeliverySelection. rewrite Hpo.
  destruct (URI.encodeURIComponent (App.orderMessage (App.ui w) po provider)) as [enc|].
  - exists po. eexists. eexists. repeat split; try assumption.
    left. eexists. eexists. repeat split.
  - exists po. eexists. eexists. repeat split; try assumption.
    right. split; [reflexivity|]. cbn [App.ui App.next App.emit].
    rewrite presence_self by exact (run_tidy es _ w fx (initial_tidy u) Hrun).
    apply setIdleLeaving_same.
Qed.

Lemma modal_has_order_witness :
  let w := fst (Scenario.after (Scenario.scan ++ [App.ClickOrder 0])) in
  exists po w' fx',
    App.pendingOrder (App.ui w) = Some po
    /\ JS.truthy (App.phone po) = true
    /\ JS.truthy (App.title po) = true
    /\ App.step w (App.SelectProvider (js "Talabat") (js "2026-01-01T12:00:00.000Z"))
       = Some (w', fx')
    /\ ((exists lead url,
           fx' = [App.TrackLead lead; App.WindowOpen url (js "_blank")]
           /\ App.pendingOrder (App.ui w') = None
           /\ App.showDeliveryModal (App.ui w') = false)
        \/ (fx' = [App.Uncaught (js "URIError")] /\ App.ui w' = App.ui w)).
Proof.
  intros w.
  apply (modal_has_order (Some Scenario.diner) (Scenario.scan ++ [App.ClickOrder 0]) w
           (snd (Scenario.after (Scenario.scan ++ [App.ClickOrder 0])))).
  - vm_compute. reflexivity.
  - vm_compute. reflexivity.
Defined.

Section Quiet.
Import Types App.

Lemma quiet_capture (u : option User) (b : bool) (s : State) :
  existsb isOrderEffect (effects (handleCapture u b s)) = false.
Proof. destruct u; [destruct b|]; reflexivity. Qed.

Lemma quiet_file (f : option File) (s : State) :
  existsb isOrderEffect (effects (handleFileChange f s)) = false.
Proof. destruct f; reflexivity. Qed.

Lemma quiet_whatsApp (phone title : option JS.str) (s : State) :
  existsb isOrderEffect (effects (handleWhatsAppClick phone title s)) = false.
Proof.
  unfold handleWhatsAppClick. destruct phone as [p|]; [destruct (JS.truthy p)|]; reflexivity.
Qed.

Lemma quiet_reset (b : bool) (s : State) :
  existsb isOrderEffect (effects (resetApp b s)) = false.
Proof. destruct b; reflexivity. Qed.

Lemma quiet_resume (t : Task) (v : Settlement) (h : Handler) (s : State) :
  resume t v = Some h -> existsb isOrderEffect (effects (h s)) = false.
Proof.
  destruct t, v; simpl; try discriminate; intros [= <-].
  - destruct r; reflexivity.
  - destruct r; reflexivity.
  - destruct r; reflexivity.
  - destruct r; reflexivity.
Qed.

End Quiet.

(** X11. Windows are opened and leads are tracked by the choice of a
    provider and by nothing else.  If a step opens a window or tracks a
    lead, the event was the choice of a provider with an order pending,
    and the step's effects are exactly the lead, carrying the order's
    restaurant, the digits of its phone and the given time, followed by
    one window on [https://wa.me/], those digits, [?text=] and the encoded
    message, in a new browsing context. *)
Theorem links_only_from_orders (w w' : App.World) (e : App.Event) (fx : list App.Effect) :
  App.step w e = Some (w', fx) ->
  existsb isOrderEffect fx = true ->
  exists provider now po encoded lead,
    e = App.SelectProvider provider now
    /\ App.pendingOrder (App.ui w) = Some po
    /\ URI.encodeURIComponent (App.orderMessage (App.ui w) po provider) = Some encoded
    /\ fx = [ App.TrackLead lead;
              App.WindowOpen
                (js "https://wa.me/" ++ App.cleanPhone (App.phone po)
                 ++ js "?text=" ++ encoded)
                (js "_blank") ]
    /\ App.restaurantName lead = App.title po
    /\ App.restaurantPhone lead = App.cleanPhone (App.phone po)
    /\ App.timestamp lead = now.
Proof.
  intros Hstep Hfx. destruct e; unfold App.step in Hstep.
  - apply guarded_Some in Hstep as (_ & _ & ->). now rewrite quiet_capture in Hfx.
  - apply guarded_Some in Hstep as (_ & _ & ->). now rewrite quiet_file in Hfx.
  - destruct (App.chunkAt (App.ui w) idx) as [c|]; [|discriminate].
    apply guarded_Some in Hstep as (_ & _ & ->). now rewrite quiet_whatsApp in Hfx.
  - apply guarded_Some in Hstep as (_ & _ & ->). now rewrite quiet_reset in Hfx.
  - apply guarded_Some in Hstep as (_ & _ & ->).
    unfold App.handleDeliverySelection in *.
    destruct (App.pendingOrder (App.ui w)) as [po|] eqn:Hpo; [|discriminate].
    destruct (URI.encodeURIComponent (App.orderMessage (App.ui w) po provider))
      as [enc|] eqn:Henc; [|discriminate].
    exists provider, now, po, enc. eexists.
    split; [reflexivity|]. split; [reflexivity|]. split; [exact Henc|].
    split; [reflexivity|]. simpl. auto.
  - apply guarded_Some in Hstep as (_ & _ & ->). discriminate.
  - apply guarded_Some in Hstep as (_ & _ & ->). discriminate.
  - apply guarded_Some in Hstep as (_ & _ & ->). discriminate.
  - injection Hstep as _ <-. discriminate.
  - destruct (nth_error (App.pending w) n) as [t|]; [|discriminate].
    destruct (App.resume t v) as [h|] eqn:Hr; [|discriminate].
    assert (fx = App.effects (h (App.ui w))) as -> by (inversion Hstep; reflexivity).
    now rewrite (quiet_resume t v h _ Hr) in Hfx.
  - destruct (App.mainView (App.ui w) && App.leaving (App.ui w)); [|discriminate].
    injection Hstep as _ <-. discriminate.
Qed.

Lemma links_only_from_orders_witness :
  let e := App.SelectProvider (js "Talabat") (js "2026-01-01T12:00:00.000Z") in
  let w := fst (Scenario.after (Scenario.scan ++ [App.ClickOrder 0])) in
  let fx := skipn 7 (snd (Scenario.after (Scenario.scan ++ [App.ClickOrder 0; e]))) in
  exists provider now po encoded lead,
    e = App.SelectProvider provider now
    /\ App.pendingOrder (App.ui w) = Some po
    /\ URI.encodeURIComponent (App.orderMessage (App.ui w) po provider) = Some encoded
    /\ fx = [ App.TrackLead lead;
              App.WindowOpen
                (js "https://wa.me/" ++ App.cleanPhone (App.phone po)
                 ++ js "?text=" ++ encoded)
                (js "_blank") ]
    /\ App.restaurantName lead = App.title po
    /\ App.restaurantPhone lead = App.cleanPhone (App.phone po)
    /\ App.timestamp lead = now.
Proof.
  intros e w fx.
  apply (links_only_from_orders w
           (fst (Scenario.after (Scenario.scan ++ [App.ClickOrder 0; e]))) e fx).
  - vm_compute. reflexivity.
  - vm_compute. reflexivity.
Defined.

Section Link.
Import URI.

Lemma uriChar_not_delimiter (c : Z) : uriChar c = true -> isDelimiter c = false.
Proof.
  intros H. unfold isDelimiter.
  destruct (Z.eqb_spec c 32) as [-> | _]; [discriminate H|].
  destruct (Z.eqb_spec c 35) as [-> | _]; [discriminate H|].
  destruct (Z.eqb_spec c 38) as [-> | _]; [discriminate H|].
  destruct (Z.eqb_spec c 43) as [-> | _]; [discriminate H|].
  destruct (Z.eqb_spec c 47) as [-> | _]; [discriminate H|].
  destruct (Z.eqb_spec c 61) as [-> | _]; [discriminate H|].
  destruct (Z.eqb_spec c 63) as [-> | _]; [discriminate H|].
  reflexivity.
Qed.

Lemma isDigit_not_delimiter (c : Z) : JS.isDigit c = true -> isDelimiter c = false.
Proof.
  intros H. apply uriChar_not_delimiter. unfold uriChar, unreserved.
  rewrite H. now rewrite orb_true_r.
Qed.

Lemma forallb_impl {A} (p q : A -> bool) (l : list A) :
  (forall a, p a = true -> q a = true) -> forallb p l = true -> forallb q l = true.
Proof.
  intros Hpq H. apply forallb_forall. intros a Ha.
  apply Hpq. exact (proj1 (forallb_forall p l) H a Ha).
Qed.

End Link.

(** X12. The message cannot break out of the link.  For a message of code
    units that can be encoded, neither the digits put after [wa.me/] nor
    the encoded text hold a space, [#], [&], [+], [/], [=] or [?]: the
    [?text=] written by the handler is the only query delimiter of the
    link. *)
Theorem message_stays_in_text (s : App.State) (po : App.PendingOrder)
    (provider encoded : JS.str) :
  JS.wellFormed (App.orderMessage s po provider) = true ->
  URI.encodeURIComponent (App.orderMessage s po provider) = Some encoded ->
  forallb (fun c => negb (isDelimiter c)) (App.cleanPhone (App.phone po)) = true
  /\ forallb (fun c => negb (isDelimiter c)) encoded = true.
Proof.
  intros Hwf Henc. split.
  - apply (forallb_impl JS.isDigit); [|apply cleanPhone_only_digits].
    intros c Hc. now rewrite (isDigit_not_delimiter c Hc).
  - apply (forallb_impl URI.uriChar);
      [|exact (encodeURIComponent_uriChars _ _ Hwf Henc)].
    intros c Hc. now rewrite (uriChar_not_delimiter c Hc).
Qed.

Lemma message_stays_in_text_witness :
  forallb (fun c => negb (isDelimiter c)) (App.cleanPhone (js "+971 (50) 123-4567")) = true
  /\ forallb (fun c => negb (isDelimiter c))
       (js "Hello%2C%20I%20found%20Fish%20%26%20Chips%3F%20on%20DishOut.%20I'd%20like%20to%20order%20Unknown%20Dish%20via%20Talabat.")
     = true.
Proof.
  apply (message_stays_in_text App.initialState
           {| App.phone := js "+971 (50) 123-4567"; App.title := js "Fish & Chips?" |}
           (js "Talabat")).
  - vm_compute. reflexivity.
  - vm_compute. reflexivity.
Defined.

(* ------------------------------------------------------------------ *)
(** * One conversion, one upload, one analysis call per file *)

Section Tally.
Import Types App.

Lemma count_app {A} (p : A -> bool) (a b : list A) :
  count p (a ++ b) = (count p a + count p b)%nat.
Proof. unfold count. now rewrite filter_app, length_app. Qed.

Lemma count_removeNth {A} (p : A -> bool) (n : nat) (l : list A) (t : A) :
  nth_error l n = Some t ->
  count p l = (count p (removeNth n l) + (if p t then 1 else 0))%nat.
Proof.
  unfold count.
  revert n; induction l as [|x l IH]; intros [|n]; simpl; try discriminate.
  - intros [= ->]. destruct (p t); simpl; lia.
  - intros H. specialize (IH n H). destruct (p x); simpl; lia.
Qed.

Lemma tally_capture (u : option User) (b : bool) (s : State) :
  tally (handleCapture u b s) = (0, 0, 0, 0, 0)%nat.
Proof. destruct u; [destruct b|]; reflexivity. Qed.

Lemma tally_whatsApp (phone title : option JS.str) (s : State) :
  tally (handleWhatsAppClick phone title s) = (0, 0, 0, 0, 0)%nat.
Proof.
  unfold handleWhatsAppClick. destruct phone as [p|]; [destruct (JS.truthy p)|]; reflexivity.
Qed.

Lemma tally_reset (b : bool) (s : State) : tally (resetApp b s) = (0, 0, 0, 0, 0)%nat.
Proof. destruct b; reflexivity. Qed.

Lemma tally_delivery (u : option User) (now provider : JS.str) (s : State) :
  tally (handleDeliverySelection u now provider s) = (0, 0, 0, 0, 0)%nat.
Proof.
  unfold handleDeliverySelection. destruct (pendingOrder s); [|reflexivity].
  destruct (URI.encodeURIComponent _); reflexivity.
Qed.

(** What a handler may start, measured against the continuations before
    and after it. *)
Lemma tally_bounds (w : World) (keep : list Task) (h : Handler)
      (c up g ac ba : nat) (chosen lostAc lostBa : nat) :
  tally (h (ui w)) = (c, up, g, ac, ba) ->
  c = chosen ->
  (count isAwaitConvert keep + lostAc = count isAwaitConvert (pending w))%nat ->
  (count beforeAnalysis keep + lostBa = count beforeAnalysis (pending w))%nat ->
  (up + ac <= c + lostAc)%nat ->
  (g + ba <= c + lostBa)%nat ->
  let r := commit w keep h in
  count isConvertStart (snd r) = chosen
  /\ (count isUploadStart (snd r) + count isAwaitConvert (pending (fst r))
      <= count isConvertStart (snd r) + count isAwaitConvert (pending w))%nat
  /\ (count isGenerate (snd r) + count beforeAnalysis (pending (fst r))
      <= count isConvertStart (snd r) + count beforeAnalysis (pending w))%nat.
Proof.
  unfold tally, commit. simpl. intros [= <- <- <- <- <-] <- Hac Hba Hu Hg.
  rewrite !count_app. repeat split; lia.
Qed.

Lemma step_tally (w w' : World) (e : Event) (fx : list Effect) :
  step w e = Some (w', fx) ->
  count isConvertStart fx = (if isFileChosen e then 1 else 0)%nat
  /\ (count isUploadStart fx + count isAwaitConvert (pending w')
      <= count isConvertStart fx + count isAwaitConvert (pending w))%nat
  /\ (count isGenerate fx + count beforeAnalysis (pending w')
      <= count isConvertStart fx + count beforeAnalysis (pending w))%nat.
Proof.
  assert (forall b h, guarded b w h = Some (w', fx) -> (w', fx) = commit w (pending w) h)
    as Hg by (intros b h; unfold guarded; destruct b; congruence).
  intros Hstep. destruct e; unfold step in Hstep.
  - apply Hg in Hstep. injection Hstep as -> ->.
    apply (tally_bounds w _ _ _ _ _ _ _ 0 0 0 (tally_capture _ _ _)); lia.
  - apply Hg in Hstep. injection Hstep as -> ->. destruct f as [f|].
    + apply (tally_bounds w _ (handleFileChange (Some f)) 1 0 0 1 1 1 0 0 eq_refl); lia.
    + apply (tally_bounds w _ (handleFileChange None) 0 0 0 0 0 0 0 0 eq_refl); lia.
  - destruct (chunkAt (ui w) idx) as [c|]; [|discriminate].
    apply Hg in Hstep. injection Hstep as -> ->.
    apply (tally_bounds w _ _ _ _ _ _ _ 0 0 0 (tally_whatsApp _ _ _)); lia.
  - apply Hg in Hstep. injection Hstep as -> ->.
    apply (tally_bounds w _ _ _ _ _ _ _ 0 0 0 (tally_reset _ _)); lia.
  - apply Hg in Hstep. injection Hstep as -> ->.
    apply (tally_bounds w _ _ _ _ _ _ _ 0 0 0 (tally_delivery _ _ _ _)); lia.
  - apply Hg in Hstep. injection Hstep as -> ->.
    apply (tally_bounds w _ closeDeliveryModal 0 0 0 0 0 0 0 0 eq_refl); lia.
  - apply Hg in Hstep. injection Hstep as -> ->.
    apply (tally_bounds w _ (modify (setCurrentPage page)) 0 0 0 0 0 0 0 0 eq_refl); lia.
  - apply Hg in Hstep. injection Hstep as -> ->.
    apply (tally_bounds w _ (modify (setCurrentPage (js "home"))) 0 0 0 0 0 0 0 0 eq_refl); lia.
  - injection Hstep as <- <-. simpl. unfold count. simpl. lia.
  - destruct (nth_error (pending w) n) as [t|] eqn:Hn; [|discriminate].
    destruct (resume t v) as [h|] eqn:Hr; [|discriminate].
    assert ((w', fx) = commit w (removeNth n (pending w)) h) as Hc by congruence.
    injection Hc as -> ->.
    pose proof (count_removeNth isAwaitConvert n _ _ Hn) as Hac.
    pose proof (count_removeNth beforeAnalysis n _ _ Hn) as Hba.
    destruct t, v; simpl in Hr; try discriminate; injection Hr as <-; simpl in Hac, Hba.
    + destruct r as [image | err].
      * apply (tally_bounds w _ (handleFileChange_converted (Resolved image))
                 0 1 0 0 1 0 1 1 eq_refl); lia.
      * apply (tally_bounds w _ (handleFileChange_converted (Rejected err))
                 0 0 0 0 0 0 1 1 eq_refl); lia.
    + destruct r as [url | err].
      * apply (tally_bounds w _ (upload_settled (Resolved url))
                 0 0 0 0 0 0 0 0 eq_refl); lia.
      * apply (tally_bounds w _ (upload_settled (Rejected err))
                 0 0 0 0 0 0 0 0 eq_refl); lia.
    + destruct r as [l | err].
      * apply (tally_bounds w _ (processImage_located base64Full (Resolved l))
                 0 0 1 0 0 0 0 1 eq_refl); lia.
      * apply (tally_bounds w _ (processImage_located base64Full (Rejected err))
                 0 0 1 0 0 0 0 1 eq_refl); lia.
    + destruct r as [response | err].
      * apply (tally_bounds w _
                 (emitAll (map Console (AIService.identifyDishAndFindPlaces_console
                                          (Resolved response))) ;;
                  processImage_identified
                    (AIService.identifyDishAndFindPlaces (Resolved response)))%handler
                 0 0 0 0 0 0 0 0 eq_refl); lia.
      * apply (tally_bounds w _
                 (emitAll (map Console (AIService.identifyDishAndFindPlaces_console
                                          (Rejected err))) ;;
                  processImage_identified
                    (AIService.identifyDishAndFindPlaces (Rejected err)))%handler
                 0 0 0 0 0 0 0 0 eq_refl); lia.
  - destruct (mainView (ui w) && leaving (ui w)); [|discriminate].
    injection Hstep as <- <-. simpl. unfold count. simpl. lia.
Qed.

Lemma run_tally (es : list Event) (w w' : World) (fx : list Effect) :
  run w es = Some (w', fx) ->
  count isConvertStart fx = count isFileChosen es
  /\ (count isUploadStart fx + count isAwaitConvert (pending w')
      <= count isConvertStart fx + count isAwaitConvert (pending w))%nat
  /\ (count isGenerate fx + count beforeAnalysis (pending w')
      <= count isConvertStart fx + count beforeAnalysis (pending w))%nat.
Proof.
  revert w fx; induction es as [|e es IH]; intros w fx; simpl.
  - intros [= <- <-]. unfold count. simpl. lia.
  - destruct (step w e) as [[w1 fx1]|] eqn:E; [|discriminate].
    destruct (run w1 es) as [[w2 fx2]|] eqn:R; [|discriminate].
    intros [= <- <-].
    destruct (step_tally w w1 e fx1 E) as (Hc1 & Hu1 & Hg1).
    destruct (IH w1 fx2 R) as (Hc2 & Hu2 & Hg2).
    rewrite !count_app.
    change (count isFileChosen (e :: es))
      with (length (filter isFileChosen ([e] ++ es))).
    rewrite filter_app, length_app.
    change (length (filter isFileChosen es)) with (count isFileChosen es).
    assert (length (filter isFileChosen [e]) = if isFileChosen e then 1 else 0)%nat as He
      by (simpl; destruct (isFileChosen e); reflexivity).
    lia.
Qed.

End Tally.

(** X13. Nothing is done twice.  Over every sequence of events from the
    initial world, the conversions started are as many as the files
    chosen, and neither the uploads started nor the analysis calls made
    outnumber them: no conversion, upload or call is ever repeated. *)
Theorem one_request_per_file (u : option App.User) (es : list App.Event)
    (w : App.World) (fx : list App.Effect) :
  App.run (App.initialWorld u) es = Some (w, fx) ->
  count isConvertStart fx = count isFileChosen es
  /\ (count App.isUploadStart fx <= count isFileChosen es)%nat
  /\ (count isGenerate fx <= count isFileChosen es)%nat.
Proof.
  intros Hrun. destruct (run_tally es _ w fx Hrun) as (Hc & Hu & Hg).
  simpl in Hu, Hg. unfold count at 4 in Hu. unfold count at 4 in Hg. simpl in Hu, Hg.
  split; [exact Hc|]. lia.
Qed.

Lemma one_request_per_file_witness :
  let fx := snd (Scenario.after Scenario.scan) in
  count isConvertStart fx = count isFileChosen Scenario.scan
  /\ (count App.isUploadStart fx <= count isFileChosen Scenario.scan)%nat
  /\ (count isGenerate fx <= count isFileChosen Scenario.scan)%nat.
Proof.
  intros fx.
  apply (one_request_per_file (Some Scenario.diner) Scenario.scan
           (fst (Scenario.after Scenario.scan)) fx).
  vm_compute. reflexivity.
Defined.

(* ------------------------------------------------------------------ *)
(** * From the order link to the deep link *)

(** X14. Ordering from a result goes to that result's number.  For a
    result on the screen whose chunk has a non-empty phone number,
    clicking its order link and then choosing a provider opens one window
    on [https://wa.me/] followed by the digits of that chunk's phone
    number and the encoded message, which names the chunk's title (or
    ["Unknown Restaurant"]); the lead is tracked just before, and
    afterwards no order is pending and the modal is closed. *)
Theorem order_reaches_the_place (w : App.World) (idx : nat) (c : Types.GroundingChunk)
    (p provider now encoded : JS.str) :
  App.chunkAt (App.ui w) idx = Some c ->
  App.rendered (App.ui w) (App.OrderLink idx) = true ->
  App.chunkPhone c = Some p ->
  JS.truthy p = true ->
  URI.encodeURIComponent
    (App.orderMessage (App.ui w)
       {| App.phone := p;
          App.title := match App.chunkTitle c with
                       | Some t => JS.orElse t (js "Unknown Restaurant")
                       | None => js "Unknown Restaurant"
                       end |}
       provider) = Some encoded ->
  exists w' lead,
    App.run w [App.ClickOrder idx; App.SelectProvider provider now]
    = Some (w', [ App.PreventDefault;
                  App.TrackLead lead;
                  App.WindowOpen
                    (js "https://wa.me/" ++ App.cleanPhone p ++ js "?text=" ++ encoded)
                    (js "_blank") ])
    /\ App.restaurantPhone lead = App.cleanPhone p
    /\ App.pendingOrder (App.ui w') = None
    /\ App.showDeliveryModal (App.ui w') = false
    /\ App.appState (App.ui w') = App.appState (App.ui w)
    /\ App.analysisResult (App.ui w') = App.analysisResult (App.ui w).
Proof.
  intros Hc Hr Hp Ht Henc.
  destruct (rendered_order _ _ Hr) as (Hmain & Hst & _).
  set (po := {| App.phone := p;
                App.title := match App.chunkTitle c with
                             | Some t => JS.orElse t (js "Unknown Restaurant")
                             | None => js "Unknown Restaurant"
                             end |}) in *.
  set (s1 := App.setShowDeliveryModal true (App.setPendingOrder (Some po) (App.ui w))).
  assert (App.step w (App.ClickOrder idx)
          = Some (App.mkWorld s1 (App.currentUser w) (App.pending w),
                  [App.PreventDefault])) as H1.
  { unfold App.step, App.guarded, App.commit. rewrite Hc, Hr.
    unfold App.handleWhatsAppClick. rewrite Hp, Ht.
    change (Some (App.mkWorld
                    (App.setIdleLeaving
                       (App.presence (App.ui w) (App.currentUser w) s1) s1)
                    (App.currentUser w) (App.pending w ++ []),
                  [App.PreventDefault])
            = Some (App.mkWorld s1 (App.currentUser w) (App.pending w),
                    [App.PreventDefault])).
    rewrite presence_stays, setIdleLeaving_same, app_nil_r;
      [reflexivity | exact Hmain | |];
      change (App.isState (App.appState (App.ui w)) Types.IDLE = false);
      now rewrite Hst. }
  unfold App.run. rewrite H1.
  unfold App.step, App.guarded, App.commit, App.deliveryModalOpen.
  simpl App.ui. 
  change (App.rendered s1 App.DeliverySelector) with (App.mainView (App.ui w)).
  rewrite Hmain. simpl andb. cbv iota.
  unfold App.handleDeliverySelection. simpl App.pendingOrder. cbv iota beta.
  change (App.orderMessage s1 po provider) with (App.orderMessage (App.ui w) po provider).
  rewrite Henc. eexists. eexists. split; [reflexivity|]. simpl. auto.
Qed.

Lemma order_reaches_the_place_witness :
  let w := fst (Scenario.after Scenario.scan) in
  exists w' lead,
    App.run w [ App.ClickOrder 0;
                App.SelectProvider (js "Talabat") (js "2026-01-01T12:00:00.000Z") ]
    = Some (w', [ App.PreventDefault;
                  App.TrackLead lead;
                  App.WindowOpen
                    (js "https://wa.me/" ++ App.cleanPhone (js "+971501234567")
                     ++ js "?text="
                     ++ js "Hello%2C%20I%20found%20Noodle%20House%20on%20DishOut.%20I'd%20like%20to%20order%20Spicy%20Tonkotsu%20Ramen%20via%20Talabat.")
                    (js "_blank") ])
    /\ App.restaurantPhone lead = App.cleanPhone (js "+971501234567")
    /\ App.pendingOrder (App.ui w') = None
    /\ App.showDeliveryModal (App.ui w') = false
    /\ App.appState (App.ui w') = App.appState (App.ui w)
    /\ App.analysisResult (App.ui w') = App.analysisResult (App.ui w).
Proof.
  intros w.
  apply (order_reaches_the_place w 0
           (AIService.withPhone Scenario.noodleHouse (js "+971501234567"))).
  - vm_compute. reflexivity.
  - vm_compute. reflexivity.
  - reflexivity.
  - reflexivity.
  - vm_compute. reflexivity.
Defined.

(* ------------------------------------------------------------------ *)
(** * The image reference and the encoding of the message *)

Section Reference.
Import Types App.

Lemma url_kept_capture (u : option User) (b : bool) (s : State) :
  uploadedImageUrl (next (handleCapture u b s)) = uploadedImageUrl s.
Proof. destruct u; [destruct b|]; reflexivity. Qed.

Lemma url_kept_whatsApp (phone title : option JS.str) (s : State) :
  uploadedImageUrl (next (handleWhatsAppClick phone title s)) = uploadedImageUrl s.
Proof.
  unfold handleWhatsAppClick. destruct phone as [p|]; [destruct (JS.truthy p)|]; reflexivity.
Qed.

Lemma url_kept_delivery (u : option User) (now provider : JS.str) (s : State) :
  uploadedImageUrl (next (handleDeliverySelection u now provider s)) = uploadedImageUrl s.
Proof.
  unfold handleDeliverySelection. destruct (pendingOrder s) as [po|]; [|reflexivity].
  destruct (URI.encodeURIComponent _); reflexivity.
Qed.

Lemma url_kept_resume (t : Task) (v : Settlement) (h : Handler) (s : State) :
  match v with UploadSettled _ => False | _ => True end ->
  resume t v = Some h -> uploadedImageUrl (next (h s)) = uploadedImageUrl s.
Proof.
  destruct t, v; simpl; try discriminate; try contradiction; intros _ [= <-];
    destruct r; reflexivity.
Qed.

(** Only a reset, the choice of a file and the settling of an upload
    write [uploadedImageUrl]. *)
Lemma step_keeps_upload (w w' : World) (e : Event) (fx : list Effect) :
  keepsUpload e = true -> step w e = Some (w', fx) ->
  uploadedImageUrl (ui w') = uploadedImageUrl (ui w).
Proof.
  intros Hk Hstep. destruct e; unfold step in Hstep; try discriminate Hk.
  - apply guarded_Some in Hstep as (_ & -> & _). apply url_kept_capture.
  - destruct f; [discriminate Hk|].
    apply guarded_Some in Hstep as (_ & -> & _). reflexivity.
  - destruct (chunkAt (ui w) idx) as [c|]; [|discriminate].
    apply guarded_Some in Hstep as (_ & -> & _). apply url_kept_whatsApp.
  - apply guarded_Some in Hstep as (_ & -> & _). apply url_kept_delivery.
  - apply guarded_Some in Hstep as (_ & -> & _). reflexivity.
  - apply guarded_Some in Hstep as (_ & -> & _). reflexivity.
  - apply guarded_Some in Hstep as (_ & -> & _). reflexivity.
  - now injection Hstep as <- _.
  - destruct (nth_error (pending w) n) as [t|] eqn:Hn; [|discriminate].
    destruct (resume t v) as [h|] eqn:Hr; [|discriminate].
    assert (w' = fst (commit w (removeNth n (pending w)) h)) as ->
      by (inversion Hstep; reflexivity).
    apply (url_kept_resume t v h (ui w)); [|exact Hr].
    now destruct v.
  - destruct (mainView (ui w) && leaving (ui w)); [|discriminate].
    now injection Hstep as <- _.
Qed.

Lemma run_keeps_upload (es : list Event) (w w' : World) (fx : list Effect) :
  forallb keepsUpload es = true -> run w es = Some (w', fx) ->
  uploadedImageUrl (ui w') = uploadedImageUrl (ui w).
Proof.
  revert w fx; induction es as [|e es IH]; intros w fx; simpl.
  - now intros _ [= <- _].
  - rewrite andb_true_iff. intros [Hk Hks].
    destruct (step w e) as [[w1 fx1]|] eqn:E; [|discriminate].
    destruct (run w1 es) as [[w2 fx2]|] eqn:R; [|discriminate].
    intros [= <- _]. rewrite (IH w1 fx2 Hks R). exact (step_keeps_upload w w1 e fx1 Hk E).
Qed.

Lemma orderMessage_reference (s : State) (po : PendingOrder) (provider url : JS.str) :
  uploadedImageUrl s = Some url -> JS.truthy url = true ->
  orderMessage s po provider
  = orderMessage (setUploadedImageUrl None s) po provider
    ++ js " Dish Reference: " ++ url.
Proof.
  intros Hu Ht. unfold orderMessage. rewrite Hu, Ht. simpl uploadedImageUrl.
  cbv iota. reflexivity.
Qed.

End Reference.

(** X15. The image reference follows the upload.  When the upload resolves
    with a non-empty URL, the order message ends with
    [" Dish Reference: "] and that URL, after the message it would have
    without an uploaded image, in the world the settlement leads to and
    in every world reached from there by events other than a reset, the
    choice of a file and the settling of another upload; a reset and the
    choice of a file drop the reference again.  When the upload fails the
    message is what it was.  Either way nothing outside the component
    happens but a line on the console. *)
Theorem reference_follows_upload (w : App.World) (n : nat) (r : Settled JS.str)
    (po : App.PendingOrder) (provider : JS.str) :
  nth_error (App.pending w) n = Some App.AwaitUpload ->
  exists w' fx,
    App.step w (App.Settle n (App.UploadSettled r)) = Some (w', fx)
    /\ match r with
       | Resolved url =>
           fx = []
           /\ (JS.truthy url = true ->
               forall es w2 fx2,
                 forallb keepsUpload es = true ->
                 App.run w' es = Some (w2, fx2) ->
                 App.orderMessage (App.ui w2) po provider
                 = App.orderMessage (App.setUploadedImageUrl None (App.ui w2)) po provider
                   ++ js " Dish Reference: " ++ url
                 /\ forall e w3 fx3,
                      e = App.ClickReset \/ (exists f, e = App.ChooseFile (Some f)) ->
                      App.step w2 e = Some (w3, fx3) ->
                      App.orderMessage (App.ui w3) po provider
                      = App.orderMessage (App.setUploadedImageUrl None (App.ui w3))
                                         po provider)
       | Rejected _ =>
           fx = [App.Console (js "Background image upload failed")]
           /\ App.orderMessage (App.ui w') po provider
              = App.orderMessage (App.ui w) po provider
       end.
Proof.
  intros Hn.
  rewrite (step_settle w n App.AwaitUpload (App.UploadSettled r) _ Hn eq_refl).
  eexists. eexists. split; [reflexivity|].
  destruct r as [url | e]; simpl; split; try reflexivity.
  intros Hurl es w2 fx2 Hes Hrun. split.
  - apply orderMessage_reference; [|exact Hurl].
    now rewrite (run_keeps_upload es _ w2 fx2 Hes Hrun).
  - intros e w3 fx3 He Hstep. unfold App.step in Hstep.
    destruct He as [-> | [f ->]]; apply guarded_Some in Hstep as (_ & -> & _).
    + destruct (App.rendered (App.ui w2) App.FileInput); reflexivity.
    + reflexivity.
Qed.

Lemma reference_follows_upload_witness :
  let w := fst (Scenario.after Scenario.scan) in
  let po := {| App.phone := js "+971501234567"; App.title := js "Noodle House" |} in
  exists w' fx,
    App.step w (App.Settle 0 (App.UploadSettled (Resolved (js "https://cdn.example/d.jpg"))))
    = Some (w', fx)
    /\ fx = []
    /\ (JS.truthy (js "https://cdn.example/d.jpg") = true ->
        forall es w2 fx2,
          forallb keepsUpload es = true ->
          App.run w' es = Some (w2, fx2) ->
          App.orderMessage (App.ui w2) po (js "Talabat")
          = App.orderMessage (App.setUploadedImageUrl None (App.ui w2)) po (js "Talabat")
            ++ js " Dish Reference: " ++ js "https://cdn.example/d.jpg"
          /\ forall e w3 fx3,
               e = App.ClickReset \/ (exists f, e = App.ChooseFile (Some f)) ->
               App.step w2 e = Some (w3, fx3) ->
               App.orderMessage (App.ui w3) po (js "Talabat")
               = App.orderMessage (App.setUploadedImageUrl None (App.ui w3))
                                  po (js "Talabat")).
Proof.
  intros w po.
  apply (reference_follows_upload w 0 (Resolved (js "https://cdn.example/d.jpg"))
           po (js "Talabat")).
  vm_compute. reflexivity.
Defined.

(** The reference of scenario A, ordered after the upload has settled. *)
Example reference_in_order :
  option_map
    (fun r => App.orderMessage (App.ui (fst r))
                {| App.phone := js "+971501234567"; App.title := js "Noodle House" |}
                (js "Talabat"))
    (App.run (fst (Scenario.after Scenario.scan))
       [ App.Settle 0 (App.UploadSettled (Resolved (js "https://cdn.example/d.jpg")));
         App.ClickOrder 0 ])
  = Some (js "Hello, I found Noodle House on DishOut. I'd like to order Spicy Tonkotsu Ramen via Talabat. Dish Reference: https://cdn.example/d.jpg").
Proof. vm_compute. reflexivity. Qed.

Section Total.
Import URI.

Lemma encodeURIComponent_total (s : JS.str) :
  surrogateFree s = true -> exists enc, encodeURIComponent s = Some enc.
Proof.
  induction s as [|c s IH]; simpl; [now exists []|].
  intros H. apply andb_true_iff in H as [Hc Hs].
  apply negb_true_iff, orb_false_iff in Hc as [Hh Hl].
  destruct (IH Hs) as [enc Henc]. rewrite Henc, Hl, Hh.
  destruct (unreserved c); eexists; reflexivity.
Qed.

End Total.

(** X16. An order without surrogates goes through.  While the modal is
    open with an order pending, if no code unit of the composed message is
    half of a surrogate pair, choosing a provider does not throw: it
    tracks the lead and opens the window. *)
Theorem order_goes_through (w : App.World) (po : App.PendingOrder)
    (provider now : JS.str) :
  App.deliveryModalOpen (App.ui w) = true ->
  App.pendingOrder (App.ui w) = Some po ->
  surrogateFree (App.orderMessage (App.ui w) po provider) = true ->
  exists w' lead encoded,
    URI.encodeURIComponent (App.orderMessage (App.ui w) po provider) = Some encoded
    /\ App.step w (App.SelectProvider provider now)
       = Some (w', [ App.TrackLead lead;
                     App.WindowOpen
                       (js "https://wa.me/" ++ App.cleanPhone (App.phone po)
                        ++ js "?text=" ++ encoded)
                       (js "_blank") ]).
Proof.
  intros Hopen Hpo Hfree.
  destruct (encodeURIComponent_total _ Hfree) as [enc Henc].
  unfold App.step, App.guarded, App.commit. rewrite Hopen.
  unfold App.handleDeliverySelection. rewrite Hpo, Henc.
  eexists. eexists. exists enc. split; reflexivity.
Qed.

Lemma order_goes_through_witness :
  let w := fst (Scenario.after (Scenario.scan ++ [App.ClickOrder 0])) in
  let po := {| App.phone := js "+971501234567"; App.title := js "Noodle House" |} in
  exists w' lead encoded,
    URI.encodeURIComponent (App.orderMessage (App.ui w) po (js "Talabat")) = Some encoded
    /\ App.step w (App.SelectProvider (js "Talabat") (js "2026-01-01T12:00:00.000Z"))
       = Some (w', [ App.TrackLead lead;
                     App.WindowOpen
                       (js "https://wa.me/" ++ App.cleanPhone (App.phone po)
                        ++ js "?text=" ++ encoded)
                       (js "_blank") ]).
Proof.
  intros w po.
  apply (order_goes_through w po (js "Talabat") (js "2026-01-01T12:00:00.000Z")).
  - vm_compute. reflexivity.
  - vm_compute. reflexivity.
  - vm_compute. reflexivity.
Defined.
